(** * The worker pool of [apps/api/src/workers/pool.ts]

    A shallow embedding of class [WorkerPool]: the pool state (the worker
    [Map], the task queue, the shutting-down flag), the objects its
    closures share (the [WorkerInfo] records captured by timer and event
    handlers), and every handler as a state transformer.  One event-loop
    turn is one call of [step]; the event loop is single threaded, so a
    run of the pool is a list of turns. *)

From Stdlib Require Import ZArith Lia.
From stdpp Require Import base list strings pretty sorting.

Local Open Scope Z_scope.
Local Open Scope nat_scope.

(** ** JavaScript fragments *)

(** [a || d] on numbers: [undefined] and [0] are falsy. *)
Definition or_default (o : option Z) (d : Z) : Z :=
  match o with
  | Some v => if Z.eqb v 0 then d else v
  | None => d
  end.

Definition or_default_nat (o : option nat) (d : nat) : nat :=
  match o with
  | Some (S n) => S n
  | _ => d
  end.

(** [s || d] on strings: [undefined] and the empty string are falsy. *)
Definition or_default_str (o : option string) (d : string) : string :=
  match o with
  | Some EmptyString => d
  | Some s => s
  | None => d
  end.

(** Truthiness of a [string | null] value. *)
Definition truthy (o : option string) : bool :=
  match o with
  | Some (String _ _) => true
  | _ => false
  end.

(** [Array.prototype.sort(cmp)]: the sort is stable, and [cmp a b > 0]
    is the only case in which [b] moves in front of an earlier [a]. *)
Fixpoint sort_insert {A} (cmp : A -> A -> Z) (x : A) (l : list A) : list A :=
  match l with
  | [] => [x]
  | y :: l' => if Z.ltb 0 (cmp x y) then y :: sort_insert cmp x l' else x :: l
  end.

Definition js_sort {A} (cmp : A -> A -> Z) (l : list A) : list A :=
  foldr (sort_insert cmp) [] l.

(** The insertion-ordered [Map<number, V>], kept as the list of its
    entries in insertion order. *)
Module JsMap.
Definition t (V : Type) := list (Z * V).

Fixpoint get {V} (k : Z) (m : t V) : option V :=
  match m with
  | [] => None
  | (k', v) :: m' => if Z.eqb k k' then Some v else get k m'
  end.

(** [set] overwrites in place when the key is present and appends
    otherwise. *)
Fixpoint set {V} (k : Z) (v : V) (m : t V) : t V :=
  match m with
  | [] => [(k, v)]
  | (k', v') :: m' =>
      if Z.eqb k k' then (k, v) :: m' else (k', v') :: set k v m'
  end.

(** [delete] removes the entry of the key (there is at most one). *)
Fixpoint delete {V} (k : Z) (m : t V) : t V :=
  match m with
  | [] => []
  | (k', v') :: m' => if Z.eqb k k' then m' else (k', v') :: delete k m'
  end.

Definition size {V} (m : t V) : nat := length m.
Definition values {V} (m : t V) : list V := map snd m.
Definition keys {V} (m : t V) : list Z := map fst m.
End JsMap.

(** ** Data model *)

(** The number [Date.now() + Math.random()] that names a worker; the pool
    only uses it as a [Map] key. *)
Definition WorkerId := Z.

(** A reference to a [WorkerInfo] object (allocation index). *)
Definition WRef := nat.

(** The promise behind a task's [resolve]/[reject] pair (allocation index). *)
Definition Fut := nat.

Inductive JsError :=
| NewError (msg : string)        (* [new Error(msg)] built by the pool *)
| WorkerFault (e : string).      (* the error object of a worker's "error" event *)

Inductive Outcome :=
| Resolved (data : option string)
| Rejected (e : JsError).

(** The error kinds of the specification, read off the errors the pool
    raises. *)
Definition PoolShuttingDown (e : JsError) : Prop :=
  e = NewError "Worker pool is shutting down" \/ e = NewError "Worker pool shutdown".
Definition TaskTimeout (e : JsError) : Prop := e = NewError "Task timeout".

Record WorkerTask := {
  t_id : string;
  t_type : string;
  t_data : string;
  t_fut : Fut;                   (* resolve / reject *)
  t_timeout : option Z;
  t_priority : option Z
}.

Record WorkerInfo := {
  w_key : WorkerId;              (* [workerId] of the handlers' closures *)
  busy : bool;
  currentTask : option string;
  tasksCompleted : nat;
  errors : nat;
  lastActivity : Z
}.

(** The message a worker posts back. *)
Record WorkerResult := {
  r_taskId : string;
  r_success : bool;
  r_data : option string;
  r_error : option string
}.

Record Options := {
  o_maxWorkers : option nat;
  o_minWorkers : option nat;
  o_idleTimeout : option Z;
  o_taskTimeout : option Z
}.

(** A pending [setTimeout] of [processQueue]: the captured [worker] and
    [task], and the delay. *)
Record Timer := {
  tm_worker : WRef;
  tm_task : WorkerTask;
  tm_delay : Z
}.

(** A suspended call of [shutdown]: in the polling loop, or awaiting the
    [terminate()] promises. *)
Inductive ShutdownCall :=
| Polling (deadline : Z)
| Terminating.

Record Pool := {
  maxWorkers : nat;
  minWorkers : nat;
  idleTimeout : Z;
  taskTimeout : Z;
  heap : list WorkerInfo;        (* every [WorkerInfo] ever allocated *)
  workers : JsMap.t WRef;
  taskQueue : list WorkerTask;
  isShuttingDown : bool;
  nextFut : nat;                 (* promises created so far *)
  timers : list Timer;
  sleepers : list ShutdownCall;
  settled : list (Fut * Outcome);          (* calls of resolve / reject, oldest first *)
  posted : list (WRef * WorkerTask);       (* calls of [postMessage] *)
  terminated : list WRef                   (* calls of [terminate()] *)
}.

(** What one turn of the event loop reads from the outside: the clock,
    and the random numbers drawn for the worker allocated at each index. *)
Record Env := {
  now : Z;
  fresh : nat -> WorkerId
}.

(** ** Field updates *)

Definition with_heap (h : list WorkerInfo) (p : Pool) : Pool :=
  {| maxWorkers := maxWorkers p; minWorkers := minWorkers p;
     idleTimeout := idleTimeout p; taskTimeout := taskTimeout p;
     heap := h; workers := workers p; taskQueue := taskQueue p;
     isShuttingDown := isShuttingDown p; nextFut := nextFut p;
     timers := timers p; sleepers := sleepers p; settled := settled p;
     posted := posted p; terminated := terminated p |}.

Definition with_workers (w : JsMap.t WRef) (p : Pool) : Pool :=
  {| maxWorkers := maxWorkers p; minWorkers := minWorkers p;
     idleTimeout := idleTimeout p; taskTimeout := taskTimeout p;
     heap := heap p; workers := w; taskQueue := taskQueue p;
     isShuttingDown := isShuttingDown p; nextFut := nextFut p;
     timers := timers p; sleepers := sleepers p; settled := settled p;
     posted := posted p; terminated := terminated p |}.

Definition with_taskQueue (q : list WorkerTask) (p : Pool) : Pool :=
  {| maxWorkers := maxWorkers p; minWorkers := minWorkers p;
     idleTimeout := idleTimeout p; taskTimeout := taskTimeout p;
     heap := heap p; workers := workers p; taskQueue := q;
     isShuttingDown := isShuttingDown p; nextFut := nextFut p;
     timers := timers p; sleepers := sleepers p; settled := settled p;
     posted := posted p; terminated := terminated p |}.

Definition with_isShuttingDown (b : bool) (p : Pool) : Pool :=
  {| maxWorkers := maxWorkers p; minWorkers := minWorkers p;
     idleTimeout := idleTimeout p; taskTimeout := taskTimeout p;
     heap := heap p; workers := workers p; taskQueue := taskQueue p;
     isShuttingDown := b; nextFut := nextFut p;
     timers := timers p; sleepers := sleepers p; settled := settled p;
     posted := posted p; terminated := terminated p |}.

Definition with_nextFut (n : nat) (p : Pool) : Pool :=
  {| maxWorkers := maxWorkers p; minWorkers := minWorkers p;
     idleTimeout := idleTimeout p; taskTimeout := taskTimeout p;
     heap := heap p; workers := workers p; taskQueue := taskQueue p;
     isShuttingDown := isShuttingDown p; nextFut := n;
     timers := timers p; sleepers := sleepers p; settled := settled p;
     posted := posted p; terminated := terminated p |}.

Definition with_timers (t : list Timer) (p : Pool) : Pool :=
  {| maxWorkers := maxWorkers p; minWorkers := minWorkers p;
     idleTimeout := idleTimeout p; taskTimeout := taskTimeout p;
     heap := heap p; workers := workers p; taskQueue := taskQueue p;
     isShuttingDown := isShuttingDown p; nextFut := nextFut p;
     timers := t; sleepers := sleepers p; settled := settled p;
     posted := posted p; terminated := terminated p |}.

Definition with_sleepers (s : list ShutdownCall) (p : Pool) : Pool :=
  {| maxWorkers := maxWorkers p; minWorkers := minWorkers p;
     idleTimeout := idleTimeout p; taskTimeout := taskTimeout p;
     heap := heap p; workers := workers p; taskQueue := taskQueue p;
     isShuttingDown := isShuttingDown p; nextFut := nextFut p;
     timers := timers p; sleepers := s; settled := settled p;
     posted := posted p; terminated := terminated p |}.

Definition with_settled (s : list (Fut * Outcome)) (p : Pool) : Pool :=
  {| maxWorkers := maxWorkers p; minWorkers := minWorkers p;
     idleTimeout := idleTimeout p; taskTimeout := taskTimeout p;
     heap := heap p; workers := workers p; taskQueue := taskQueue p;
     isShuttingDown := isShuttingDown p; nextFut := nextFut p;
     timers := timers p; sleepers := sleepers p; settled := s;
     posted := posted p; terminated := terminated p |}.

Definition with_posted (s : list (WRef * WorkerTask)) (p : Pool) : Pool :=
  {| maxWorkers := maxWorkers p; minWorkers := minWorkers p;
     idleTimeout := idleTimeout p; taskTimeout := taskTimeout p;
     heap := heap p; workers := workers p; taskQueue := taskQueue p;
     isShuttingDown := isShuttingDown p; nextFut := nextFut p;
     timers := timers p; sleepers := sleepers p; settled := settled p;
     posted := s; terminated := terminated p |}.

Definition with_terminated (s : list WRef) (p : Pool) : Pool :=
  {| maxWorkers := maxWorkers p; minWorkers := minWorkers p;
     idleTimeout := idleTimeout p; taskTimeout := taskTimeout p;
     heap := heap p; workers := workers p; taskQueue := taskQueue p;
     isShuttingDown := isShuttingDown p; nextFut := nextFut p;
     timers := timers p; sleepers := sleepers p; settled := settled p;
     posted := posted p; terminated := s |}.

(** Assignments to the fields of one [WorkerInfo] object. *)
Definition set_idle (i : WorkerInfo) : WorkerInfo :=
  {| w_key := w_key i; busy := false; currentTask := None;
     tasksCompleted := tasksCompleted i; errors := errors i;
     lastActivity := lastActivity i |}.

Definition set_assigned (tid : string) (at_ : Z) (i : WorkerInfo) : WorkerInfo :=
  {| w_key := w_key i; busy := true; currentTask := Some tid;
     tasksCompleted := tasksCompleted i; errors := errors i;
     lastActivity := at_ |}.

Definition set_completed (at_ : Z) (i : WorkerInfo) : WorkerInfo :=
  {| w_key := w_key i; busy := false; currentTask := None;
     tasksCompleted := S (tasksCompleted i); errors := errors i;
     lastActivity := at_ |}.

Definition incr_errors (i : WorkerInfo) : WorkerInfo :=
  {| w_key := w_key i; busy := busy i; currentTask := currentTask i;
     tasksCompleted := tasksCompleted i; errors := S (errors i);
     lastActivity := lastActivity i |}.

(** [r.field = ...] on the object behind reference [r]. *)
Definition modify (r : WRef) (f : WorkerInfo -> WorkerInfo) (p : Pool) : Pool :=
  match heap p !! r with
  | Some i => with_heap (<[r := f i]> (heap p)) p
  | None => p
  end.

Definition settle (f : Fut) (o : Outcome) (p : Pool) : Pool :=
  with_settled (settled p ++ [(f, o)]) p.

Definition terminate (r : WRef) (p : Pool) : Pool :=
  with_terminated (terminated p ++ [r]) p.

(** ** The methods of [WorkerPool] *)

(** [spawnWorker]: allocate the [WorkerInfo], register it under its id. *)
Definition spawnWorker (e : Env) (p : Pool) : Pool :=
  let r := length (heap p) in
  let workerId := fresh e r in
  let workerInfo :=
    {| w_key := workerId; busy := false; currentTask := None;
       tasksCompleted := 0; errors := 0; lastActivity := now e |} in
  with_workers (JsMap.set workerId r (workers p))
    (with_heap (heap p ++ [workerInfo]) p).

Definition is_idle (p : Pool) (r : WRef) : bool :=
  match heap p !! r with
  | Some info => negb (busy info)
  | None => false
  end.

(** [getAvailableWorker]: the first entry of the map that is not busy. *)
Definition getAvailableWorker (p : Pool) : option WRef :=
  List.find (is_idle p) (JsMap.values (workers p)).

(** [info.currentTask === tid] for the object behind [r]. *)
Definition names (p : Pool) (tid : string) (r : WRef) : bool :=
  match heap p !! r with
  | Some info => bool_decide (currentTask info = Some tid)
  | None => false
  end.

(** The filter of [processQueue]: no live worker names the task. *)
Definition is_pending (p : Pool) (t : WorkerTask) : bool :=
  negb (existsb (names p (t_id t)) (JsMap.values (workers p))).

Definition pendingTasks (p : Pool) : list WorkerTask :=
  List.filter (is_pending p) (taskQueue p).

(** The comparator [(a, b) => (b.priority || 0) - (a.priority || 0)]. *)
Definition by_priority (a b : WorkerTask) : Z :=
  (or_default (t_priority b) 0 - or_default (t_priority a) 0)%Z.

(** The body of [if (worker) { ... }]: mark, post, arm the timer. *)
Definition assign (e : Env) (r : WRef) (task : WorkerTask) (p : Pool) : Pool :=
  let p1 := modify r (set_assigned (t_id task) (now e)) p in
  let p2 := with_posted (posted p1 ++ [(r, task)]) p1 in
  with_timers
    (timers p2 ++ [{| tm_worker := r; tm_task := task;
                      tm_delay := or_default (t_timeout task) (taskTimeout p) |}])
    p2.

(** The loop [for (const task of pendingTasks)]. *)
Fixpoint dispatch (e : Env) (pending : list WorkerTask) (p : Pool) : Pool :=
  match pending with
  | [] => p
  | task :: rest =>
      match getAvailableWorker p with
      | Some worker => dispatch e rest (assign e worker task p)
      | None =>
          if JsMap.size (workers p) <? maxWorkers p then
            let p1 := spawnWorker e p in
            match getAvailableWorker p1 with
            | Some worker => dispatch e rest (assign e worker task p1)
            | None => p1
            end
          else p
      end
  end.

Definition processQueue (e : Env) (p : Pool) : Pool :=
  match taskQueue p with
  | [] => p
  | _ :: _ =>
      if isShuttingDown p then p
      else
        let p1 := with_taskQueue (js_sort by_priority (taskQueue p)) p in
        dispatch e (pendingTasks p1) p1
  end.

(** The callback given to [setTimeout] in [processQueue]. *)
Definition on_timeout (tm : Timer) (p : Pool) : Pool :=
  let task := tm_task tm in
  match heap p !! tm_worker tm with
  | Some worker =>
      if bool_decide (currentTask worker = Some (t_id task)) then
        let p1 :=
          match list_find (fun t => t_id t = t_id task) (taskQueue p) with
          | Some (taskIndex, timedOutTask) =>
              settle (t_fut timedOutTask) (Rejected (NewError "Task timeout"))
                (with_taskQueue (delete taskIndex (taskQueue p)) p)
          | None => p
          end in
        modify (tm_worker tm) set_idle p1
      else p
  | None => p
  end.

Definition handleWorkerMessage (e : Env) (workerId : WorkerId)
    (result : WorkerResult) (p : Pool) : Pool :=
  match JsMap.get workerId (workers p) with
  | None => p
  | Some r =>
      let p1 := modify r (set_completed (now e)) p in
      match list_find (fun t => t_id t = r_taskId result) (taskQueue p1) with
      | None => p1
      | Some (taskIndex, task) =>
          let p2 := with_taskQueue (delete taskIndex (taskQueue p1)) p1 in
          let p3 :=
            if r_success result
            then settle (t_fut task) (Resolved (r_data result)) p2
            else settle (t_fut task)
                   (Rejected (NewError (or_default_str (r_error result) "Task failed"))) p2 in
          processQueue e p3
      end
  end.

(** [if (!this.isShuttingDown && this.workers.size < this.minWorkers)
    this.spawnWorker()], as written in the exit and error handlers. *)
Definition respawn (e : Env) (p : Pool) : Pool :=
  if negb (isShuttingDown p) && (JsMap.size (workers p) <? minWorkers p)
  then spawnWorker e p else p.

(** "Reject current task if any". *)
Definition rejectCurrent (workerInfo : WorkerInfo) (error : JsError) (p : Pool) : Pool :=
  if truthy (currentTask workerInfo) then
    match list_find (fun t => Some (t_id t) = currentTask workerInfo) (taskQueue p) with
    | Some (taskIndex, task) =>
        settle (t_fut task) (Rejected error)
          (with_taskQueue (delete taskIndex (taskQueue p)) p)
    | None => p
    end
  else p.

Definition handleWorkerError (e : Env) (workerId : WorkerId) (error : JsError)
    (p : Pool) : Pool :=
  match JsMap.get workerId (workers p) with
  | None => p
  | Some r =>
      match heap p !! r with
      | None => p
      | Some workerInfo =>
          let p1 := rejectCurrent workerInfo error p in
          let p2 := terminate r p1 in
          let p3 := with_workers (JsMap.delete workerId (workers p2)) p2 in
          processQueue e (respawn e p3)
      end
  end.

(** The "error" listener installed by [spawnWorker] on worker [r]. *)
Definition on_error (e : Env) (r : WRef) (error : string) (p : Pool) : Pool :=
  match heap p !! r with
  | Some workerInfo =>
      handleWorkerError e (w_key workerInfo) (WorkerFault error)
        (modify r incr_errors p)
  | None => p
  end.

(** The "message" listener installed by [spawnWorker] on worker [r]. *)
Definition on_message (e : Env) (r : WRef) (result : WorkerResult) (p : Pool) : Pool :=
  match heap p !! r with
  | Some workerInfo => handleWorkerMessage e (w_key workerInfo) result p
  | None => p
  end.

(** The "exit" listener installed by [spawnWorker] on worker [r]. *)
Definition on_exit (e : Env) (r : WRef) (p : Pool) : Pool :=
  match heap p !! r with
  | Some workerInfo =>
      respawn e (with_workers (JsMap.delete (w_key workerInfo) (workers p)) p)
  | None => p
  end.

(** One iteration of the loop of [cleanupIdleWorkers]. *)
Definition cleanupOne (e : Env) (p : Pool) (entry : Z * WRef) : Pool :=
  let '(workerId, r) := entry in
  match heap p !! r with
  | Some info =>
      if negb (busy info)
         && (minWorkers p <? JsMap.size (workers p))
         && (idleTimeout p <? now e - lastActivity info)%Z
      then with_workers (JsMap.delete workerId (workers p)) (terminate r p)
      else p
  | None => p
  end.

(** [cleanupIdleWorkers]: the loop only ever deletes the entry it is
    visiting, so it visits the entries present at its start. *)
Definition cleanupIdleWorkers (e : Env) (p : Pool) : Pool :=
  foldl (cleanupOne e) p (workers p).

Definition task_id (e : Env) (rnd : string) : string :=
  pretty (now e) +:+ "-" +:+ rnd.

(** [execute]: [inl] is the thrown error, [inr] the promise and the new
    state. *)
Definition execute (e : Env) (type data : string) (timeout priority : option Z)
    (rnd : string) (p : Pool) : JsError + (Fut * Pool) :=
  if isShuttingDown p then inl (NewError "Worker pool is shutting down")
  else
    let task :=
      {| t_id := task_id e rnd; t_type := type; t_data := data;
         t_fut := nextFut p; t_timeout := timeout; t_priority := priority |} in
    let p1 := with_nextFut (S (nextFut p)) p in
    let p2 := with_taskQueue (taskQueue p1 ++ [task]) p1 in
    inr (nextFut p, processQueue e p2).

Record Stats := {
  totalWorkers : nat;
  busyWorkers : nat;
  idleWorkers : nat;
  queuedTasks : nat;
  totalTasksCompleted : nat;
  totalErrors : nat
}.

Definition infos (p : Pool) : list WorkerInfo :=
  omap (fun r => heap p !! r) (JsMap.values (workers p)).

Definition getStats (p : Pool) : Stats :=
  let busyCount := length (List.filter busy (infos p)) in
  {| totalWorkers := JsMap.size (workers p);
     busyWorkers := busyCount;
     idleWorkers := JsMap.size (workers p) - busyCount;
     queuedTasks := length (taskQueue p);
     totalTasksCompleted := foldr (fun i acc => tasksCompleted i + acc) 0 (infos p);
     totalErrors := foldr (fun i acc => errors i + acc) 0 (infos p) |}.

(** [shutdown], after its loop: reject what is queued, empty the queue,
    call [terminate()] on every worker, and await those promises. *)
Definition shutdown_drain (p : Pool) : Pool :=
  let p1 :=
    foldl (fun acc task =>
             settle (t_fut task) (Rejected (NewError "Worker pool shutdown")) acc)
      p (taskQueue p) in
  let p2 := with_taskQueue [] p1 in
  let p3 := foldl (fun acc r => terminate r acc) p2 (JsMap.values (workers p2)) in
  with_sleepers (sleepers p3 ++ [Terminating]) p3.

(** The test of the [while] loop of [shutdown] at time [now]: sleep
    100ms more, or leave the loop. *)
Definition shutdown_poll (e : Env) (deadline : Z) (p : Pool) : Pool :=
  if (0 <? length (taskQueue p)) && (now e <? deadline)%Z
  then with_sleepers (sleepers p ++ [Polling deadline]) p
  else shutdown_drain p.

(** [shutdown(timeout = 10000)], up to its first [await]. *)
Definition shutdown (e : Env) (timeout : option Z) (p : Pool) : Pool :=
  let t := match timeout with Some t => t | None => 10000%Z end in
  shutdown_poll e (now e + t)%Z (with_isShuttingDown true p).

(** Resuming the [k]-th suspended call of [shutdown]. *)
Definition shutdown_resume (e : Env) (k : nat) (p : Pool) : Pool :=
  match sleepers p !! k with
  | Some (Polling deadline) =>
      shutdown_poll e deadline (with_sleepers (delete k (sleepers p)) p)
  | Some Terminating =>
      with_workers [] (with_sleepers (delete k (sleepers p)) p)
  | None => p
  end.

(** [new WorkerPool(options)] on a machine with [cpus] processors. *)
Definition constructor (o : Options) (cpus : nat) (e : Env) : Pool :=
  let p0 :=
    {| maxWorkers := or_default_nat (o_maxWorkers o) cpus;
       minWorkers := or_default_nat (o_minWorkers o) (Nat.max 1 (cpus / 2));
       idleTimeout := or_default (o_idleTimeout o) 30000;
       taskTimeout := or_default (o_taskTimeout o) 60000;
       heap := []; workers := []; taskQueue := []; isShuttingDown := false;
       nextFut := 0; timers := []; sleepers := []; settled := [];
       posted := []; terminated := [] |} in
  Nat.iter (minWorkers p0) (spawnWorker e) p0.

(** ** The event loop *)

Inductive Event :=
| EvExecute (type data : string) (timeout priority : option Z) (rnd : string)
| EvMessage (r : WRef) (result : WorkerResult)
| EvError (r : WRef) (error : string)
| EvExit (r : WRef)
| EvTimeout (k : nat)            (* the [k]-th pending timer fires *)
| EvCleanup                      (* the [setInterval] of the constructor *)
| EvShutdown (timeout : option Z)
| EvResume (k : nat).            (* the [k]-th suspended [shutdown] resumes *)

Definition step (e : Env) (ev : Event) (p : Pool) : Pool :=
  match ev with
  | EvExecute type data timeout priority rnd =>
      match execute e type data timeout priority rnd p with
      | inl _ => p
      | inr (_, p') => p'
      end
  | EvMessage r result => on_message e r result p
  | EvError r error => on_error e r error p
  | EvExit r => on_exit e r p
  | EvTimeout k =>
      match timers p !! k with
      | Some tm => on_timeout tm (with_timers (delete k (timers p)) p)
      | None => p
      end
  | EvCleanup => cleanupIdleWorkers e p
  | EvShutdown timeout => shutdown e timeout p
  | EvResume k => shutdown_resume e k p
  end.

(** A run: the turns of the event loop, oldest first. *)
Definition run (evs : list (Env * Event)) (p : Pool) : Pool :=
  foldl (fun acc '(e, ev) => step e ev acc) p evs.

(** ** Predicates of the properties *)

(** The four configuration fields agree. *)
Definition same_config (p p' : Pool) : Prop :=
  maxWorkers p' = maxWorkers p /\ minWorkers p' = minWorkers p
  /\ idleTimeout p' = idleTimeout p /\ taskTimeout p' = taskTimeout p.

(** [totalWorkers <= maxWorkers]. *)
Definition within_max (p : Pool) : Prop := JsMap.size (workers p) <= maxWorkers p.

(** The state [shutdown] leaves when its loop ends in state [q]. *)
Definition drained (q q' : Pool) : Prop :=
  settled q'
  = settled q ++ map (fun t => (t_fut t, Rejected (NewError "Worker pool shutdown")))
                  (taskQueue q)
  /\ taskQueue q' = []
  /\ terminated q' = terminated q ++ JsMap.values (workers q)
  /\ workers q' = workers q
  /\ heap q' = heap q.

(** A map with one entry per key whose values are among the first [n]
    allocated objects. *)
Definition wf_map (m : JsMap.t WRef) (n : nat) : Prop :=
  NoDup (JsMap.keys m) /\ Forall (fun kr => snd kr < n) m.

(** What holds of every state a pool reaches: the map has one entry per
    key, its values are allocated objects, and no task id, queued or
    recorded in a worker, is the empty string. *)
Record wf (p : Pool) : Prop := {
  wf_workers : wf_map (workers p) (length (heap p));
  wf_queue : Forall (fun t => t_id t <> "") (taskQueue p);
  wf_heap : Forall (fun i => currentTask i <> Some "") (heap p)
}.

(** The promises of the queued tasks, followed by the promises on which
    [resolve] or [reject] has been called, one entry per call. *)
Definition ledger (p : Pool) : list Fut :=
  map t_fut (taskQueue p) ++ map fst (settled p).

(** The queued tasks some live worker names. *)
Definition inFlightTasks (p : Pool) : list WorkerTask :=
  List.filter (fun t => negb (is_pending p t)) (taskQueue p).





(** The turns of a run in which [execute] gives a task the id [tid]. *)
Definition reuses_id (tid : string) (turn : Env * Event) : Prop :=
  match turn with
  | (e, EvExecute _ _ _ _ rnd) => task_id e rnd = tid
  | _ => False
  end.

(** No queued task has the id [tid]. *)
Definition no_task_named (tid : string) (p : Pool) : Prop :=
  Forall (fun t => t_id t <> tid) (taskQueue p).

(** ** Concrete runs *)

(** A clock reading; the worker allocated at index [n] gets key [n]. *)
Definition clock (t : Z) : Env := {| now := t; fresh := fun n => Z.of_nat n |}.

Definition one_worker : Options :=
  {| o_maxWorkers := Some 1; o_minWorkers := Some 1;
     o_idleTimeout := None; o_taskTimeout := None |}.

Definition one_to_two : Options :=
  {| o_maxWorkers := Some 2; o_minWorkers := Some 1;
     o_idleTimeout := None; o_taskTimeout := None |}.

Definition task_a : WorkerTask :=
  {| t_id := "1001-a"; t_type := "hash"; t_data := "x"; t_fut := 0;
     t_timeout := None; t_priority := None |}.

Definition timer_a : Timer :=
  {| tm_worker := 0; tm_task := task_a; tm_delay := 60000%Z |}.

Definition busy_with_a : WorkerInfo :=
  {| w_key := 0%Z; busy := true; currentTask := Some "1001-a";
     tasksCompleted := 0; errors := 0; lastActivity := 1001%Z |}.

(** One task is submitted and posted to the only worker. *)
Definition submit_a : list (Env * Event) :=
  [(clock 1001, EvExecute "hash" "x" None None "a")].

(** ... and then that worker's execution unit errors. *)
Definition submit_then_crash : list (Env * Event) :=
  submit_a ++ [(clock 1002, EvError 0 "boom")].

(** Two tasks grow the pool to two workers; both complete. *)
Definition grow_and_finish : list (Env * Event) :=
  [(clock 1001, EvExecute "hash" "x" None None "a");
   (clock 1001, EvExecute "hash" "y" None (Some 5%Z) "b");
   (clock 1500, EvMessage 0 {| r_taskId := "1001-a"; r_success := true;
                               r_data := Some "ok"; r_error := None |});
   (clock 1600, EvMessage 1 {| r_taskId := "1001-b"; r_success := false;
                               r_data := None; r_error := None |})].

(** One worker, three tasks: the first is posted at once; of the two
    that wait, the later one has the higher priority. *)
Definition three_tasks : list (Env * Event) :=
  [(clock 1001, EvExecute "hash" "x" None None "a");
   (clock 1002, EvExecute "hash" "y" None (Some 1%Z) "b");
   (clock 1003, EvExecute "hash" "z" None (Some 5%Z) "c")].

Definition done_a : WorkerResult :=
  {| r_taskId := "1001-a"; r_success := true; r_data := Some "ok"; r_error := None |}.

(** ** Further predicates of the pool *)

(** An entry of the map is filed under the key its worker's handlers
    captured, and that worker has counted no error. *)
Definition entry_ok (p : Pool) (kr : Z * WRef) : Prop :=
  exists i, heap p !! snd kr = Some i /\ w_key i = fst kr /\ errors i = 0.

(** Every entry of the map is in order, and every worker record is busy
    exactly when it names a task. *)
Record coherent (p : Pool) : Prop := {
  coh_entries : Forall (entry_ok p) (workers p);
  coh_busy : Forall (fun i => busy i = true <-> currentTask i <> None) (heap p)
}.

(** The turn draws, for the worker allocated at index [n], the number
    [key n]. *)
Definition draws (key : nat -> WorkerId) (e : Env) : Prop :=
  forall n, fresh e n = key n.

(** Every allocated worker carries the key drawn for its index. *)
Definition keyed_by (key : nat -> WorkerId) (p : Pool) : Prop :=
  forall r i, heap p !! r = Some i -> w_key i = key r.

(** While the pool is not shutting down, no call of [shutdown] is
    suspended and the map holds at least [minWorkers] workers. *)
Definition staffed (p : Pool) : Prop :=
  isShuttingDown p = false ->
  sleepers p = [] /\ minWorkers p <= JsMap.size (workers p).

(** No worker is idle and the map is at [maxWorkers]. *)
Definition saturated (p : Pool) : Prop :=
  getAvailableWorker p = None /\ maxWorkers p <= JsMap.size (workers p).

(** ** The pools of the process *)

(** The five module-level pool variables of [pool.ts], one per task
    domain; [None] is [null]. *)
Inductive Domain := Image | Pdf | General | QRCode | Video.

Definition Registry := Domain -> option Pool.

Definition domain_eqb (a b : Domain) : bool :=
  match a, b with
  | Image, Image | Pdf, Pdf | General, General | QRCode, QRCode | Video, Video => true
  | _, _ => false
  end.

Definition all_domains : list Domain := [Image; Pdf; General; QRCode; Video].

(** Before any pool is used. *)
Definition no_pools : Registry := fun _ => None.

Definition set_pool (d : Domain) (p : Pool) (g : Registry) : Registry :=
  fun d' => if domain_eqb d d' then Some p else g d'.

(** The options each getter passes to [new WorkerPool]; [cpus] is
    [cpus().length].  The pool state keeps no trace of the script path. *)
Definition poolOptions (d : Domain) (cpus : nat) : Options :=
  match d with
  | Image | Pdf | QRCode =>
      {| o_maxWorkers := Some (Nat.max 2 (cpus / 2)); o_minWorkers := Some 1;
         o_idleTimeout := None; o_taskTimeout := None |}
  | General =>
      {| o_maxWorkers := Some cpus; o_minWorkers := Some 2;
         o_idleTimeout := None; o_taskTimeout := None |}
  | Video =>
      {| o_maxWorkers := Some (Nat.max 2 (cpus / 4)); o_minWorkers := Some 1;
         o_idleTimeout := None; o_taskTimeout := Some 300000%Z |}
  end.

(** The body shared by the five getters: build the pool on first use,
    return the one already built afterwards. *)
Definition getPool (d : Domain) (cpus : nat) (e : Env) (g : Registry) : Pool * Registry :=
  match g d with
  | Some p => (p, g)
  | None =>
      let p := constructor (poolOptions d cpus) cpus e in
      (p, set_pool d p g)
  end.

Definition getImagePool := getPool Image.
Definition getPdfPool := getPool Pdf.
Definition getGeneralPool := getPool General.
Definition getQRCodePool := getPool QRCode.
Definition getVideoPool := getPool Video.

(** The SIGTERM and SIGINT handlers: [pool?.shutdown()] on each of the
    five variables, each call running up to its first [await]. *)
Definition onSignal (e : Env) (g : Registry) : Registry :=
  fun d => match g d with
           | Some p => Some (shutdown e None p)
           | None => None
           end.

(** ** The routes of [workers.route.ts] *)

(** [allStats.reduce((sum, s) => sum + f(s), 0)]. *)
Definition sum_of (f : Stats -> nat) (allStats : list Stats) : nat :=
  foldl (fun sum s => sum + f s) 0 allStats.

Record StatsBody := {
  sb_image : Stats;
  sb_pdf : Stats;
  sb_general : Stats;
  sb_qrcode : Stats;
  sb_video : Stats;
  sb_total : Stats
}.

(** [GET /stats]: the body of its [try] block. *)
Definition statsRoute (cpus : nat) (e : Env) (g : Registry) : StatsBody * Registry :=
  let '(ip, g1) := getImagePool cpus e g in
  let imageStats := getStats ip in
  let '(pp, g2) := getPdfPool cpus e g1 in
  let pdfStats := getStats pp in
  let '(gp, g3) := getGeneralPool cpus e g2 in
  let generalStats := getStats gp in
  let '(qp, g4) := getQRCodePool cpus e g3 in
  let qrcodeStats := getStats qp in
  let '(vp, g5) := getVideoPool cpus e g4 in
  let videoStats := getStats vp in
  let allStats := [imageStats; pdfStats; generalStats; qrcodeStats; videoStats] in
  ({| sb_image := imageStats; sb_pdf := pdfStats; sb_general := generalStats;
      sb_qrcode := qrcodeStats; sb_video := videoStats;
      sb_total :=
        {| totalWorkers := sum_of totalWorkers allStats;
           busyWorkers := sum_of busyWorkers allStats;
           idleWorkers := sum_of idleWorkers allStats;
           queuedTasks := sum_of queuedTasks allStats;
           totalTasksCompleted := sum_of totalTasksCompleted allStats;
           totalErrors := sum_of totalErrors allStats |} |},
   g5).

Record HealthBody := {
  hb_healthy : bool;
  hb_pools : list (string * string);
  hb_status : nat
}.

(** [GET /health]: the body of its [try] block, with the HTTP status. *)
Definition healthRoute (cpus : nat) (e : Env) (g : Registry) : HealthBody * Registry :=
  let '(ip, g1) := getImagePool cpus e g in
  let '(pp, g2) := getPdfPool cpus e g1 in
  let '(gp, g3) := getGeneralPool cpus e g2 in
  let '(qp, g4) := getQRCodePool cpus e g3 in
  let '(vp, g5) := getVideoPool cpus e g4 in
  let pools :=
    [("image", getStats ip); ("pdf", getStats pp); ("general", getStats gp);
     ("qrcode", getStats qp); ("video", getStats vp)] in
  let poolHealth :=
    map (fun '(name, stats) =>
           (name, if 0 <? totalWorkers stats then "healthy" else "unhealthy"))
      pools in
  let healthy := forallb (fun s => 0 <? totalWorkers s) (map snd pools) in
  ({| hb_healthy := healthy; hb_pools := poolHealth;
      hb_status := if healthy then 200 else 503 |},
   g5).

(** ** CSV rows of [apps/api/src/workers/general.worker.ts]

    The general worker writes the rows of a CSV text in [jsonToCSV] and
    reads them back in [parseCSVLine].  Strings are those of the Standard
    Library, a character standing for a code unit. *)

Definition dquote : Ascii.ascii := Ascii.ascii_of_nat 34.
Definition newline : Ascii.ascii := Ascii.ascii_of_nat 10.

(** [str.includes(sub)]. *)
Definition includes (str sub : string) : bool :=
  match String.index 0 sub str with
  | Some _ => true
  | None => false
  end.

(** The [replace] of the quoted branch: every quote is doubled. *)
Fixpoint double_quotes (str : string) : string :=
  match str with
  | EmptyString => EmptyString
  | String c rest =>
      if Ascii.eqb c dquote
      then String dquote (String dquote (double_quotes rest))
      else String c (double_quotes rest)
  end.

(** The cell [jsonToCSV] writes for one value of a row: [None] is a
    [null] or [undefined] value, [Some str] a value whose [String(value)]
    is [str]. *)
Definition csvCell (delimiter : string) (value : option string) : string :=
  match value with
  | None => EmptyString
  | Some str =>
      if includes str delimiter
         || includes str (String dquote EmptyString)
         || includes str (String newline EmptyString)
      then String dquote (double_quotes str +:+ String dquote EmptyString)
      else str
  end.

(** One row: the cells of the values, joined by the delimiter. *)
Definition csvRow (delimiter : string) (values : list (option string)) : string :=
  String.concat delimiter (map (csvCell delimiter) values).

(** The loop of [parseCSVLine] from position [i], [line] being the text
    from [i] on; the look-ahead [line[i + 1]] is the head of [rest], and
    [i++] after an escaped quote skips it. *)
Fixpoint parseCSVLine_from (line delimiter : string) (result : list string)
    (current : string) (inQuotes : bool) : list string :=
  match line with
  | EmptyString => result ++ [current]
  | String char rest =>
      if inQuotes then
        if Ascii.eqb char dquote then
          match rest with
          | String next rest' =>
              if Ascii.eqb next dquote
              then parseCSVLine_from rest' delimiter result
                     (current +:+ String dquote EmptyString) true
              else parseCSVLine_from rest delimiter result current false
          | EmptyString => parseCSVLine_from rest delimiter result current false
          end
        else parseCSVLine_from rest delimiter result
               (current +:+ String char EmptyString) true
      else
        if Ascii.eqb char dquote then
          parseCSVLine_from rest delimiter result current true
        else if String.eqb (String char EmptyString) delimiter then
          parseCSVLine_from rest delimiter (result ++ [current]) EmptyString false
        else parseCSVLine_from rest delimiter result
               (current +:+ String char EmptyString) false
  end.

Definition parseCSVLine (line delimiter : string) : list string :=
  parseCSVLine_from line delimiter [] EmptyString false.

(** What comes back for a value: its text, the empty string for [null]
    (and for the empty string itself). *)
Definition cell_text (value : option string) : string :=
  or_default_str value EmptyString.

(** Whether a character occurs in a string. *)
Fixpoint has_char (c : Ascii.ascii) (s : string) : bool :=
  match s with
  | EmptyString => false
  | String b rest => Ascii.eqb c b || has_char c rest
  end.

(** The text after a closing quote does not start with a quote. *)
Definition no_quote_ahead (rest : string) : Prop :=
  match rest with
  | EmptyString => True
  | String c _ => Ascii.eqb c dquote = false
  end.

(** ** Further concrete runs *)

(** The pool of one worker after its only task was posted. *)
Definition one_busy : Pool := run submit_a (constructor one_worker 8 (clock 1000)).

(** A pool of one worker on which [shutdown] was called with an empty
    queue: the call is suspended on the termination of the worker. *)
Definition shut_pool : Pool :=
  shutdown (clock 2000) None (constructor one_worker 8 (clock 1000)).

(** The answer to a task that is no longer in the queue. *)
Definition stale_result : WorkerResult :=
  {| r_taskId := "0999-z"; r_success := true; r_data := Some "late"; r_error := None |}.

(** A registry whose image pool has completed its shutdown. *)
Definition image_pool_gone : Registry :=
  set_pool Image (run [] (step (clock 2100) (EvResume 0) shut_pool)) no_pools.

Definition comma : Ascii.ascii := Ascii.ascii_of_nat 44.

(** A text with a delimiter and a quote in it. *)
Definition tricky : string := "a" +:+ String comma (String dquote "b").

(** Three values: that text, a [null], and a plain text. *)
Definition sample_values : list (option string) :=
  [Some tricky; None; Some "plain"].

(** A clock reading on a machine whose id generator repeats itself: every
    worker is given the id 7. *)
Definition stuck_clock (t : Z) : Env := {| now := t; fresh := fun _ => 7%Z |}.

(** Two tasks on a pool of one to two workers whose ids collide: the
    second worker takes the first one's place in the map. *)
Definition submit_two_colliding : list (Env * Event) :=
  [(stuck_clock 1001, EvExecute "hash" "x" None None "a");
   (stuck_clock 1001, EvExecute "hash" "y" None None "b")].

Definition task_b : WorkerTask :=
  {| t_id := "1001-b"; t_type := "hash"; t_data := "y"; t_fut := 1;
     t_timeout := None; t_priority := None |}.



(** * Properties *)

(** ** Which fields each method can change *)

Lemma modify_shape r f p :
  exists h, modify r f p = with_heap h p /\ length h = length (heap p).
Proof.
  unfold modify. destruct (heap p !! r) as [i|] eqn:E.
  - eexists. split; [reflexivity|]. apply length_insert.
  - exists (heap p). split; [by destruct p|done].
Qed.

Lemma assign_shape e r t p :
  exists h tms,
    assign e r t p = with_timers tms (with_posted (posted p ++ [(r, t)]) (with_heap h p))
    /\ length h = length (heap p).
Proof.
  unfold assign. destruct (modify_shape r (set_assigned (t_id t) (now e)) p) as (h & -> & Hl).
  by exists h, (timers p ++ [{| tm_worker := r; tm_task := t;
                                tm_delay := or_default (t_timeout t) (taskTimeout p) |}]).
Qed.

Lemma dispatch_shape e l p :
  exists h w ps tms,
    dispatch e l p = with_timers tms (with_posted ps (with_workers w (with_heap h p))).
Proof.
  revert p. induction l as [|t l IH]; intros p; simpl.
  - exists (heap p), (workers p), (posted p), (timers p). by destruct p.
  - destruct (getAvailableWorker p) as [r|].
    + destruct (assign_shape e r t p) as (h & tms & -> & _).
      destruct (IH (with_timers tms (with_posted (posted p ++ [(r, t)]) (with_heap h p))))
        as (h' & w' & ps' & tms' & ->).
      by exists h', w', ps', tms'.
    + destruct (JsMap.size (workers p) <? maxWorkers p).
      * destruct (getAvailableWorker (spawnWorker e p)) as [r|].
        -- destruct (assign_shape e r t (spawnWorker e p)) as (h & tms & -> & _).
           edestruct IH as (h' & w' & ps' & tms' & ->).
           by exists h', w', ps', tms'.
        -- exists (heap (spawnWorker e p)), (workers (spawnWorker e p)), (posted p), (timers p).
           by destruct p.
      * exists (heap p), (workers p), (posted p), (timers p). by destruct p.
Qed.

Lemma processQueue_shape e p :
  exists h w q ps tms,
    processQueue e p
    = with_timers tms (with_posted ps (with_taskQueue q (with_workers w (with_heap h p)))).
Proof.
  assert (exists h w q ps tms,
    p = with_timers tms (with_posted ps (with_taskQueue q (with_workers w (with_heap h p)))))
    as Hid.
  { exists (heap p), (workers p), (taskQueue p), (posted p), (timers p). by destruct p. }
  unfold processQueue. destruct (taskQueue p) as [|t q] eqn:Eq; [done|].
  destruct (isShuttingDown p); [done|].
  edestruct dispatch_shape as (h & w & ps & tms & ->).
  by exists h, w, (js_sort by_priority (t :: q)), ps, tms.
Qed.

Lemma foldl_settle_shape (err : JsError) (q : list WorkerTask) p :
  foldl (fun acc task => settle (t_fut task) (Rejected err) acc) p q
  = with_settled (settled p ++ map (fun t => (t_fut t, Rejected err)) q) p.
Proof.
  revert p. induction q as [|t q IH]; intros p; simpl.
  - rewrite app_nil_r. by destruct p.
  - rewrite IH. unfold settle. simpl. by rewrite <- app_assoc.
Qed.

Lemma foldl_terminate_shape (rs : list WRef) p :
  foldl (fun acc r => terminate r acc) p rs = with_terminated (terminated p ++ rs) p.
Proof.
  revert p. induction rs as [|r rs IH]; intros p; simpl.
  - rewrite app_nil_r. by destruct p.
  - rewrite IH. unfold terminate. simpl. by rewrite <- app_assoc.
Qed.

(** [shutdown], from the end of its loop to its last [await], in one
    equation. *)
Lemma shutdown_drain_eq p :
  shutdown_drain p
  = with_sleepers (sleepers p ++ [Terminating])
      (with_terminated (terminated p ++ JsMap.values (workers p))
         (with_taskQueue []
            (with_settled
               (settled p ++ map (fun t => (t_fut t, Rejected (NewError "Worker pool shutdown")))
                               (taskQueue p)) p))).
Proof.
  unfold shutdown_drain. rewrite foldl_settle_shape, foldl_terminate_shape. reflexivity.
Qed.

Lemma cleanupOne_shape e p entry :
  exists w tr, cleanupOne e p entry = with_terminated tr (with_workers w p).
Proof.
  assert (exists w tr, p = with_terminated tr (with_workers w p)) as Hid.
  { exists (workers p), (terminated p). by destruct p. }
  unfold cleanupOne. destruct entry as [k r].
  destruct (heap p !! r) as [info|]; [|done].
  destruct (_ && _); [|done]. by eexists _, _.
Qed.

Lemma cleanup_fold_shape e l p :
  exists w tr, foldl (cleanupOne e) p l = with_terminated tr (with_workers w p).
Proof.
  revert p. induction l as [|x l IH]; intros p; simpl.
  - exists (workers p), (terminated p). by destruct p.
  - destruct (cleanupOne_shape e p x) as (w & tr & ->).
    destruct (IH (with_terminated tr (with_workers w p))) as (w' & tr' & ->).
    by exists w', tr'.
Qed.

(** Replace every call of a looping method in the goal by the fields it
    writes. *)
Ltac shape :=
  repeat match goal with
    | |- context [processQueue ?e ?p] =>
        let H := fresh in
        destruct (processQueue_shape e p) as (? & ? & ? & ? & ? & H); rewrite H; clear H
    | |- context [modify ?r ?f ?p] =>
        let H := fresh in
        destruct (modify_shape r f p) as (? & H & ?); rewrite H; clear H
    | |- context [foldl (cleanupOne ?e) ?p ?l] =>
        let H := fresh in
        destruct (cleanup_fold_shape e l p) as (? & ? & H); rewrite H; clear H
    | |- context [shutdown_drain ?p] => rewrite (shutdown_drain_eq p)
    end.

Ltac unfold_handlers :=
  unfold on_message, on_error, on_exit, on_timeout, handleWorkerMessage,
    handleWorkerError, rejectCurrent, respawn, execute, cleanupIdleWorkers,
    shutdown, shutdown_resume, shutdown_poll, settle, terminate.

(** Split on every test a handler makes. *)
Ltac branches :=
  repeat match goal with
    | |- context [match ?x with _ => _ end] =>
        lazymatch x with
        | context [match _ with _ => _ end] => fail
        | _ => destruct x eqn:?
        end
    end.

Lemma step_config e ev p : same_config p (step e ev p).
Proof.
  unfold same_config.
  destruct ev; simpl; unfold_handlers; branches; shape; simpl; auto.
Qed.

Lemma step_flag e ev p :
  isShuttingDown p = true -> isShuttingDown (step e ev p) = true.
Proof.
  destruct ev; simpl; unfold_handlers; branches; shape; simpl; auto; congruence.
Qed.

Lemma step_nextFut e ev p : nextFut p <= nextFut (step e ev p).
Proof.
  destruct ev; simpl; unfold_handlers; branches; shape; simpl; auto;
    simplify_eq; shape; simpl; lia.
Qed.

Lemma run_app evs evs' p : run (evs ++ evs') p = run evs' (run evs p).
Proof. unfold run. apply foldl_app. Qed.

Lemma run_cons e ev evs p : run ((e, ev) :: evs) p = run evs (step e ev p).
Proof. reflexivity. Qed.

(** Induction over the turns of a run, for properties the turns preserve. *)
Lemma run_invariant (I : Pool -> Prop) :
  (forall e ev p, I p -> I (step e ev p)) ->
  forall evs p, I p -> I (run evs p).
Proof.
  intros Hstep evs. induction evs as [|[e ev] evs IH]; intros p Hp; [done|].
  rewrite run_cons. apply IH, Hstep, Hp.
Qed.

Lemma run_config evs p : same_config p (run evs p).
Proof.
  revert p. induction evs as [|[e ev] evs IH]; intros p.
  - by repeat split.
  - rewrite run_cons. destruct (IH (step e ev p)) as (?&?&?&?).
    destruct (step_config e ev p) as (?&?&?&?). repeat split; congruence.
Qed.

Lemma run_flag evs p : isShuttingDown p = true -> isShuttingDown (run evs p) = true.
Proof. apply (run_invariant (fun p => isShuttingDown p = true)), step_flag. Qed.

Lemma iter_spawn_config e n p : same_config p (Nat.iter n (spawnWorker e) p).
Proof.
  induction n as [|n IH]; simpl; [by repeat split|].
  destruct IH as (?&?&?&?). by repeat split.
Qed.

Lemma iter_spawn_frame e n p :
  exists h w, Nat.iter n (spawnWorker e) p = with_workers w (with_heap h p).
Proof.
  induction n as [|n IH]; simpl.
  - exists (heap p), (workers p). by destruct p.
  - destruct IH as (h & w & ->). by eexists _, _.
Qed.

(** ** Construction defaults *)

(** C9 (as amended): with a field omitted the constructor takes
    [maxWorkers] the processor count, [minWorkers] half the processor
    count and at least 1, [idleTimeout] 30000 ms and [taskTimeout]
    60000 ms, whatever the other fields are; the default of [minWorkers]
    is computed from the processor count, not from a supplied
    [maxWorkers]. *)
Theorem constructor_defaults (mx mn : option nat) (it tt : option Z) (cpus : nat) (e : Env) :
  maxWorkers (constructor {| o_maxWorkers := None; o_minWorkers := mn;
                             o_idleTimeout := it; o_taskTimeout := tt |} cpus e) = cpus
  /\ minWorkers (constructor {| o_maxWorkers := mx; o_minWorkers := None;
                                o_idleTimeout := it; o_taskTimeout := tt |} cpus e)
     = Nat.max 1 (cpus / 2)
  /\ idleTimeout (constructor {| o_maxWorkers := mx; o_minWorkers := mn;
                                 o_idleTimeout := None; o_taskTimeout := tt |} cpus e)
     = 30000%Z
  /\ taskTimeout (constructor {| o_maxWorkers := mx; o_minWorkers := mn;
                                 o_idleTimeout := it; o_taskTimeout := None |} cpus e)
     = 60000%Z.
Proof.
  unfold constructor.
  repeat split;
    match goal with
    | |- context [Nat.iter ?n (spawnWorker e) ?p] =>
        destruct (iter_spawn_config e n p) as (Hmax & Hmin & Hidle & Htask)
    end; first [rewrite Hmax | rewrite Hmin | rewrite Hidle | rewrite Htask];
    reflexivity.
Qed.

(** C9 (as stated) fails: on an 8-processor machine a pool configured
    with [maxWorkers = 2] and no [minWorkers] gets [minWorkers = 4], not
    half of its [maxWorkers]. *)
Lemma constructor_min_not_half_of_max :
  ~ (forall (o : Options) (cpus : nat) (e : Env),
        o_minWorkers o = None ->
        minWorkers (constructor o cpus e)
        = Nat.max 1 (maxWorkers (constructor o cpus e) / 2)).
Proof.
  intros H.
  specialize (H {| o_maxWorkers := Some 2; o_minWorkers := None;
                   o_idleTimeout := None; o_taskTimeout := None |}
                8 {| now := 0; fresh := fun n => Z.of_nat n |} eq_refl).
  vm_compute in H. discriminate H.
Qed.

(** ** [execute] during shutdown *)

(** C3: once [isShuttingDown] is set it stays set, and every call of
    [execute] then throws the shutting-down error and leaves the pool as
    it was: nothing is queued, no worker is spawned. *)
Theorem execute_after_shutdown (e : Env) (type data : string)
    (timeout priority : option Z) (rnd : string) (evs : list (Env * Event)) (p : Pool) :
  isShuttingDown p = true ->
  let p' := run evs p in
  (exists err, execute e type data timeout priority rnd p' = inl err /\ PoolShuttingDown err)
  /\ step e (EvExecute type data timeout priority rnd) p' = p'.
Proof.
  intros Hp p'. pose proof (run_flag evs p Hp) as Hflag. fold p' in Hflag.
  simpl. unfold execute. rewrite Hflag. split; [|done].
  eexists. split; [reflexivity|]. by left.
Qed.

(** ** The size of the worker map *)

Lemma JsMap_set_size {V} k (v : V) m :
  JsMap.size m <= JsMap.size (JsMap.set k v m) <= S (JsMap.size m).
Proof.
  unfold JsMap.size. induction m as [|[k' v'] m IH]; simpl; [lia|].
  destruct (k =? k')%Z; simpl; lia.
Qed.

Lemma JsMap_delete_size {V} k (m : JsMap.t V) :
  JsMap.size (JsMap.delete k m) <= JsMap.size m <= S (JsMap.size (JsMap.delete k m)).
Proof.
  unfold JsMap.size. induction m as [|[k' v'] m IH]; simpl; [lia|].
  destruct (k =? k')%Z; simpl; lia.
Qed.

Lemma spawnWorker_size e p :
  JsMap.size (workers p) <= JsMap.size (workers (spawnWorker e p)) <= S (JsMap.size (workers p)).
Proof. simpl. apply JsMap_set_size. Qed.

Lemma assign_workers e r t p : workers (assign e r t p) = workers p.
Proof. by destruct (assign_shape e r t p) as (h & tms & -> & _). Qed.

Lemma assign_maxWorkers e r t p : maxWorkers (assign e r t p) = maxWorkers p.
Proof. by destruct (assign_shape e r t p) as (h & tms & -> & _). Qed.

Lemma assign_heap_length e r t p : length (heap (assign e r t p)) = length (heap p).
Proof. by destruct (assign_shape e r t p) as (h & tms & -> & ?). Qed.

(** The loop of [processQueue] never takes the map beyond [maxWorkers],
    and allocates a worker only if the map was below it. *)
Lemma dispatch_size e l p :
  JsMap.size (workers p) <= maxWorkers p ->
  JsMap.size (workers (dispatch e l p)) <= maxWorkers p.
Proof.
  revert p. induction l as [|t l IH]; intros p Hp; simpl; [done|].
  destruct (getAvailableWorker p) as [r|].
  - rewrite <- (assign_maxWorkers e r t p). apply IH.
    by rewrite assign_workers, assign_maxWorkers.
  - destruct (JsMap.size (workers p) <? maxWorkers p) eqn:Hlt; [|done].
    apply Nat.ltb_lt in Hlt. pose proof (spawnWorker_size e p) as Hs.
    destruct (getAvailableWorker (spawnWorker e p)) as [r|]; [|lia].
    specialize (IH (assign e r t (spawnWorker e p))).
    rewrite assign_workers, assign_maxWorkers in IH. apply IH. simpl. simpl in Hs. lia.
Qed.

Lemma dispatch_heap_length e l p :
  length (heap p) <= length (heap (dispatch e l p))
  /\ (length (heap p) < length (heap (dispatch e l p)) ->
      JsMap.size (workers p) < maxWorkers p).
Proof.
  revert p. induction l as [|t l IH]; intros p; simpl; [lia|].
  destruct (getAvailableWorker p) as [r|].
  - specialize (IH (assign e r t p)).
    rewrite assign_heap_length, assign_workers, assign_maxWorkers in IH. exact IH.
  - destruct (JsMap.size (workers p) <? maxWorkers p) eqn:Hlt; [|lia].
    apply Nat.ltb_lt in Hlt.
    destruct (getAvailableWorker (spawnWorker e p)) as [r|].
    + specialize (IH (assign e r t (spawnWorker e p))).
      rewrite assign_heap_length in IH. simpl in IH. rewrite length_app in IH.
      simpl in IH. lia.
    + simpl. rewrite length_app. simpl. lia.
Qed.

Lemma processQueue_size e p :
  JsMap.size (workers p) <= maxWorkers p ->
  JsMap.size (workers (processQueue e p)) <= maxWorkers p.
Proof.
  intros Hp. unfold processQueue. destruct (taskQueue p); [done|].
  destruct (isShuttingDown p); [done|].
  by apply (dispatch_size e _ (with_taskQueue _ p)).
Qed.

Lemma processQueue_heap_length e p :
  length (heap p) <= length (heap (processQueue e p))
  /\ (length (heap p) < length (heap (processQueue e p)) ->
      isShuttingDown p = false /\ JsMap.size (workers p) < maxWorkers p).
Proof.
  unfold processQueue. destruct (taskQueue p); [lia|].
  destruct (isShuttingDown p) eqn:Hs; [lia|].
  destruct (dispatch_heap_length e
              (pendingTasks (with_taskQueue (js_sort by_priority (w :: l)) p))
              (with_taskQueue (js_sort by_priority (w :: l)) p)) as [H1 H2].
  simpl in *. split; [done|]. intros H. split; [done|]. by apply H2.
Qed.

Lemma respawn_size e p :
  minWorkers p <= maxWorkers p ->
  JsMap.size (workers p) <= maxWorkers p ->
  JsMap.size (workers (respawn e p)) <= maxWorkers p.
Proof.
  intros Hc Hp. unfold respawn.
  destruct (negb (isShuttingDown p) && (JsMap.size (workers p) <? minWorkers p)) eqn:Hb; [|done].
  apply andb_true_iff in Hb as [_ Hlt%Nat.ltb_lt].
  pose proof (spawnWorker_size e p). lia.
Qed.

Lemma respawn_maxWorkers e p : maxWorkers (respawn e p) = maxWorkers p.
Proof. unfold respawn. by destruct (_ && _). Qed.

Lemma cleanup_fold_size e l p :
  JsMap.size (workers (foldl (cleanupOne e) p l)) <= JsMap.size (workers p).
Proof.
  revert p. induction l as [|[k r] l IH]; intros p; simpl; [done|].
  etransitivity; [apply IH|]. unfold cleanupOne.
  destruct (heap p !! r); [|done]. destruct (_ && _); [|done].
  simpl. apply JsMap_delete_size.
Qed.

Lemma step_within_max e ev p :
  minWorkers p <= maxWorkers p -> within_max p -> within_max (step e ev p).
Proof.
  unfold within_max. intros Hc Hp.
  destruct (step_config e ev p) as (-> & _). destruct ev; simpl.
  - unfold execute. destruct (isShuttingDown p) eqn:Hs; [done|].
    etransitivity; [apply processQueue_size; simpl; done|]. by simpl.
  - unfold on_message, handleWorkerMessage.
    destruct (heap p !! r) as [wi|]; [|done].
    destruct (JsMap.get (w_key wi) (workers p)) as [r'|]; [|done].
    destruct (modify_shape r' (set_completed (now e)) p) as (h & -> & _). simpl.
    destruct (list_find _ _) as [[i t]|]; [|done].
    destruct (r_success result); unfold settle;
      (etransitivity; [apply processQueue_size; simpl; done|]); by simpl.
  - unfold on_error, handleWorkerError.
    destruct (heap p !! r) as [wi|]; [|done].
    destruct (modify_shape r incr_errors p) as (h & -> & _). simpl.
    destruct (JsMap.get (w_key wi) (workers p)) as [r'|]; [|done].
    destruct (h !! r') as [wi'|]; [|done].
    etransitivity; [apply processQueue_size|]; rewrite ?respawn_maxWorkers.
    + apply respawn_size; unfold rejectCurrent; branches; simpl; try done;
        pose proof (JsMap_delete_size (w_key wi) (workers p)); lia.
    + unfold rejectCurrent; branches; simpl; done.
  - unfold on_exit. destruct (heap p !! r) as [wi|]; [|done].
    etransitivity; [apply respawn_size|]; simpl; try done.
    pose proof (JsMap_delete_size (w_key wi) (workers p)). lia.
  - destruct (timers p !! k) as [tm|]; [|done].
    unfold on_timeout. simpl. branches; shape; simpl; done.
  - unfold cleanupIdleWorkers.
    destruct (cleanup_fold_shape e (workers p) p) as (w & tr & Heq).
    pose proof (cleanup_fold_size e (workers p) p) as Hle.
    rewrite Heq in *. simpl in *. lia.
  - unfold shutdown, shutdown_poll. simpl. branches; shape; simpl; done.
  - unfold shutdown_resume, shutdown_poll. branches; shape; simpl; try done.
    unfold JsMap.size; simpl; lia.
Qed.

Lemma iter_spawn_size e n p :
  JsMap.size (workers (Nat.iter n (spawnWorker e) p)) <= n + JsMap.size (workers p).
Proof.
  induction n as [|n IH]; [done|].
  change (Nat.iter (S n) (spawnWorker e) p)
    with (spawnWorker e (Nat.iter n (spawnWorker e) p)).
  pose proof (spawnWorker_size e (Nat.iter n (spawnWorker e) p)). lia.
Qed.

Lemma constructor_size o cpus e :
  JsMap.size (workers (constructor o cpus e)) <= minWorkers (constructor o cpus e).
Proof.
  unfold constructor.
  match goal with
  | |- context [Nat.iter ?n (spawnWorker e) ?p] =>
      destruct (iter_spawn_config e n p) as (_ & -> & _);
      pose proof (iter_spawn_size e n p) as H
  end.
  simpl in *. unfold JsMap.size in *. simpl in *. lia.
Qed.

Lemma run_within_max evs p :
  minWorkers p <= maxWorkers p -> within_max p -> within_max (run evs p).
Proof.
  revert p. induction evs as [|[e ev] evs IH]; intros p Hc Hp; [done|].
  rewrite run_cons. destruct (step_config e ev p) as (Hmx & Hmn & _).
  apply IH; [lia|]. by apply step_within_max.
Qed.

Lemma omap_length_le {A B} (f : A -> option B) l : length (omap f l) <= length l.
Proof. induction l as [|x l IH]; csimpl; [done|]. destruct (f x); simpl; lia. Qed.

Lemma filter_length_le {A} (f : A -> bool) l : length (List.filter f l) <= length l.
Proof. induction l as [|x l IH]; simpl; [done|]. destruct (f x); simpl; lia. Qed.

Lemma busy_le_total p : busyWorkers (getStats p) <= totalWorkers (getStats p).
Proof.
  simpl. etransitivity; [apply filter_length_le|]. unfold infos.
  etransitivity; [apply omap_length_le|]. unfold JsMap.values, JsMap.size.
  by rewrite length_map.
Qed.

(** C2: in every state a pool built with [minWorkers <= maxWorkers] can
    reach, [busyWorkers <= totalWorkers <= maxWorkers]; a dispatch pass
    allocates a worker only when the map is strictly below [maxWorkers],
    and the exit handler only when the pool is not shutting down and the
    map, after the removal, is strictly below [minWorkers]. *)
Theorem workers_within_bounds (o : Options) (cpus : nat) (e0 : Env)
    (evs : list (Env * Event)) :
  minWorkers (constructor o cpus e0) <= maxWorkers (constructor o cpus e0) ->
  let p := run evs (constructor o cpus e0) in
  busyWorkers (getStats p) <= totalWorkers (getStats p)
  /\ totalWorkers (getStats p) <= maxWorkers p
  /\ (forall e, length (heap p) < length (heap (processQueue e p)) ->
        totalWorkers (getStats p) < maxWorkers p)
  /\ (forall e r, length (heap p) < length (heap (on_exit e r p)) ->
        exists info, heap p !! r = Some info /\ isShuttingDown p = false
          /\ JsMap.size (JsMap.delete (w_key info) (workers p)) < minWorkers p).
Proof.
  intros Hc p. split; [apply busy_le_total|]. split; [|split].
  - apply run_within_max; [done|]. unfold within_max.
    etransitivity; [apply constructor_size|done].
  - intros e H. by apply (processQueue_heap_length e p).
  - clearbody p. intros e r. unfold on_exit.
    destruct (heap p !! r) as [info|]; [|intros; lia].
    unfold respawn. simpl. destruct (isShuttingDown p); simpl; [intros; lia|].
    destruct (_ <? _) eqn:Hlt; simpl; [|intros; lia]. intros _. exists info.
    by apply Nat.ltb_lt in Hlt.
Qed.

(** ** Idle cleanup *)

(** What one visit of the sweep does: nothing, unless the worker is
    idle, the map is above [minWorkers] and the worker has been inactive
    for more than [idleTimeout]; then it is terminated and its entry
    deleted. *)
Lemma cleanupOne_cases e p k r :
  cleanupOne e p (k, r) = p
  \/ exists info,
       heap p !! r = Some info /\ busy info = false
       /\ minWorkers p < JsMap.size (workers p)
       /\ (idleTimeout p < now e - lastActivity info)%Z
       /\ cleanupOne e p (k, r)
          = with_workers (JsMap.delete k (workers p)) (terminate r p).
Proof.
  unfold cleanupOne. destruct (heap p !! r) as [info|]; [|by left].
  destruct (busy info) eqn:Hb; simpl; [by left|].
  destruct (minWorkers p <? JsMap.size (workers p)) eqn:Hs; simpl; [|by left].
  destruct (idleTimeout p <? now e - lastActivity info)%Z eqn:Ht; [|by left].
  right. exists info. apply Nat.ltb_lt in Hs. apply Z.ltb_lt in Ht. done.
Qed.

Lemma cleanup_fold_min e l p :
  minWorkers p <= JsMap.size (workers p) ->
  minWorkers p <= JsMap.size (workers (foldl (cleanupOne e) p l)).
Proof.
  revert p. induction l as [|[k r] l IH]; intros p Hp; cbn [foldl]; [done|].
  destruct (cleanupOne_cases e p k r) as [->|(info & _ & _ & Hlt & _ & ->)]; [by apply IH|].
  specialize (IH (with_workers (JsMap.delete k (workers p)) (terminate r p))).
  simpl in IH. apply IH. pose proof (JsMap_delete_size k (workers p)). lia.
Qed.

Lemma cleanup_fold_terminated e l p :
  exists rs,
    terminated (foldl (cleanupOne e) p l) = terminated p ++ rs
    /\ Forall (fun r => exists k info,
                 (k, r) ∈ l /\ heap p !! r = Some info /\ busy info = false
                 /\ (idleTimeout p < now e - lastActivity info)%Z) rs.
Proof.
  revert p. induction l as [|[k r] l IH]; intros p; cbn [foldl].
  - exists []. by rewrite app_nil_r.
  - destruct (cleanupOne_cases e p k r) as [->|(info & Hi & Hb & _ & Ht & ->)].
    + destruct (IH p) as (rs & -> & Hrs). exists rs. split; [done|].
      eapply Forall_impl; [exact Hrs|]. intros x (k' & i' & Hin & ?).
      exists k', i'. split; [by right|done].
    + destruct (IH (with_workers (JsMap.delete k (workers p)) (terminate r p)))
        as (rs & -> & Hrs). simpl. exists (r :: rs). rewrite <- app_assoc.
      split; [done|]. constructor.
      * exists k, info. split; [by left|done].
      * eapply Forall_impl; [exact Hrs|]. intros x (k' & i' & Hin & ?).
        exists k', i'. split; [by right|done].
Qed.

(** C7: the sweep terminates only workers of the map that are idle and
    have been inactive for more than [idleTimeout]; each visit deletes
    only while the map is strictly larger than [minWorkers]; so a sweep
    started with [totalWorkers >= minWorkers] ends with
    [totalWorkers >= minWorkers]. *)
Theorem cleanup_keeps_minimum (e : Env) (p : Pool) :
  minWorkers p <= totalWorkers (getStats p) ->
  let p' := cleanupIdleWorkers e p in
  minWorkers p' <= totalWorkers (getStats p')
  /\ (exists rs,
        terminated p' = terminated p ++ rs
        /\ Forall (fun r => exists k info,
                     (k, r) ∈ workers p /\ heap p !! r = Some info
                     /\ busy info = false
                     /\ (idleTimeout p < now e - lastActivity info)%Z) rs)
  /\ (forall q k r,
        cleanupOne e q (k, r) <> q ->
        minWorkers q < JsMap.size (workers q)
        /\ cleanupOne e q (k, r) = with_workers (JsMap.delete k (workers q)) (terminate r q)).
Proof.
  intros Hp p'. subst p'. unfold cleanupIdleWorkers. split; [|split].
  - destruct (cleanup_fold_shape e (workers p) p) as (w & tr & Heq).
    pose proof (cleanup_fold_min e (workers p) p Hp) as Hmin.
    rewrite Heq in *. simpl in *. done.
  - apply cleanup_fold_terminated.
  - intros q k r Hne.
    destruct (cleanupOne_cases e q k r) as [?|(info & _ & _ & Hlt & _ & ?)]; done.
Qed.

(** ** Shutdown *)

Lemma modify_isShuttingDown r f p : isShuttingDown (modify r f p) = isShuttingDown p.
Proof. by destruct (modify_shape r f p) as (h & -> & _). Qed.

Lemma modify_taskQueue r f p : taskQueue (modify r f p) = taskQueue p.
Proof. by destruct (modify_shape r f p) as (h & -> & _). Qed.

Lemma modify_settled r f p : settled (modify r f p) = settled p.
Proof. by destruct (modify_shape r f p) as (h & -> & _). Qed.

Lemma modify_workers r f p : workers (modify r f p) = workers p.
Proof. by destruct (modify_shape r f p) as (h & -> & _). Qed.

Lemma modify_nextFut r f p : nextFut (modify r f p) = nextFut p.
Proof. by destruct (modify_shape r f p) as (h & -> & _). Qed.

Lemma modify_heap_length r f p : length (heap (modify r f p)) = length (heap p).
Proof. by destruct (modify_shape r f p) as (h & -> & ?). Qed.

Create Rewrite HintDb frames.
#[local] Hint Rewrite modify_isShuttingDown modify_taskQueue modify_settled
  modify_workers modify_nextFut modify_heap_length : frames.

(** [processQueue] returns at once while the pool is shutting down. *)
Lemma processQueue_shutting e p : isShuttingDown p = true -> processQueue e p = p.
Proof. intros H. unfold processQueue. rewrite H. by destruct (taskQueue p). Qed.

Lemma respawn_shutting e p : isShuttingDown p = true -> respawn e p = p.
Proof. intros H. unfold respawn. by rewrite H. Qed.

Lemma step_no_spawn e ev p :
  isShuttingDown p = true -> length (heap (step e ev p)) = length (heap p).
Proof.
  intros Hs. destruct ev; simpl.
  - unfold execute. by rewrite Hs.
  - unfold on_message, handleWorkerMessage. branches; try done;
      rewrite ?processQueue_shutting by (by destruct (r_success result); simpl;
                                           autorewrite with frames);
      try destruct (r_success result); simpl; by autorewrite with frames.
  - unfold on_error, handleWorkerError.
    destruct (heap p !! r) as [wi|]; [|done].
    destruct (JsMap.get _ _) as [r'|]; [|by autorewrite with frames].
    destruct (heap _ !! r') as [wi'|]; [|by autorewrite with frames].
    assert (isShuttingDown (rejectCurrent wi' (WorkerFault error) (modify r incr_errors p))
            = true) as Hs'.
    { unfold rejectCurrent. branches; simpl; by autorewrite with frames. }
    rewrite respawn_shutting, processQueue_shutting by done.
    unfold rejectCurrent. branches; simpl; by autorewrite with frames.
  - unfold on_exit. branches; [|done]. by rewrite respawn_shutting.
  - unfold on_timeout. branches; simpl; autorewrite with frames; done.
  - unfold cleanupIdleWorkers.
    by destruct (cleanup_fold_shape e (workers p) p) as (w & tr & ->).
  - unfold shutdown, shutdown_poll. branches; shape; done.
  - unfold shutdown_resume, shutdown_poll. branches; shape; done.
Qed.

Lemma run_no_spawn evs p :
  isShuttingDown p = true -> length (heap (run evs p)) = length (heap p).
Proof.
  revert p. induction evs as [|[e ev] evs IH]; intros p Hs; [done|].
  rewrite run_cons, IH by (by apply step_flag). by apply step_no_spawn.
Qed.

Lemma shutdown_poll_wait e d q :
  taskQueue q <> [] -> (now e < d)%Z ->
  shutdown_poll e d q = with_sleepers (sleepers q ++ [Polling d]) q.
Proof.
  intros Hq Hd. unfold shutdown_poll. destruct (taskQueue q); [done|].
  apply Z.ltb_lt in Hd. by rewrite Hd.
Qed.

Lemma shutdown_poll_leave e d q :
  taskQueue q = [] \/ (d <= now e)%Z ->
  drained q (shutdown_poll e d q)
  /\ sleepers (shutdown_poll e d q) = sleepers q ++ [Terminating].
Proof.
  intros H. unfold shutdown_poll.
  assert ((0 <? length (taskQueue q)) && (now e <? d)%Z = false) as ->.
  { destruct H as [->|H]; [done|]. apply Z.ltb_ge in H. rewrite H. apply andb_false_r. }
  rewrite shutdown_drain_eq. by repeat split.
Qed.

(** C8: [shutdown] sets the flag; as long as the queue is non-empty and
    the deadline is ahead, the call only sleeps and polls again; when the
    queue is empty or the deadline has passed it rejects every queued
    task with the shutdown error, empties the queue and calls
    [terminate()] on every worker of the map, and after the last await
    clears the map; and from the moment the flag is set no turn of the
    event loop allocates a worker. *)
Theorem shutdown_drains_and_never_spawns (e : Env) (timeout : option Z) (p : Pool) :
  let deadline := (now e + default 10000 timeout)%Z in
  let p1 := shutdown e timeout p in
  isShuttingDown p1 = true
  /\ (taskQueue p <> [] -> (now e < deadline)%Z ->
      p1 = with_sleepers (sleepers p ++ [Polling deadline]) (with_isShuttingDown true p))
  /\ (taskQueue p = [] \/ (deadline <= now e)%Z ->
      drained p p1 /\ sleepers p1 = sleepers p ++ [Terminating])
  /\ (forall e' k d q,
        sleepers q !! k = Some (Polling d) ->
        taskQueue q <> [] -> (now e' < d)%Z ->
        shutdown_resume e' k q = with_sleepers (delete k (sleepers q) ++ [Polling d]) q)
  /\ (forall e' k d q,
        sleepers q !! k = Some (Polling d) ->
        taskQueue q = [] \/ (d <= now e')%Z ->
        drained q (shutdown_resume e' k q)
        /\ sleepers (shutdown_resume e' k q) = delete k (sleepers q) ++ [Terminating])
  /\ (forall e' k q,
        sleepers q !! k = Some Terminating -> workers (shutdown_resume e' k q) = [])
  /\ PoolShuttingDown (NewError "Worker pool shutdown")
  /\ (forall evs,
        isShuttingDown (run evs p1) = true
        /\ length (heap (run evs p1)) = length (heap p)).
Proof.
  intros deadline p1.
  assert (isShuttingDown p1 = true) as Hflag.
  { subst p1. unfold shutdown, shutdown_poll. branches; shape; done. }
  assert (p1 = shutdown_poll e deadline (with_isShuttingDown true p)) as Hp1.
  { subst p1 deadline. unfold shutdown. by destruct timeout. }
  split; [done|]. repeat apply conj.
  - intros Hq Hd. rewrite Hp1. by rewrite shutdown_poll_wait.
  - intros H. rewrite Hp1.
    by destruct (shutdown_poll_leave e deadline (with_isShuttingDown true p) H).
  - intros e' k d q Hk Hq Hd. unfold shutdown_resume. rewrite Hk.
    by rewrite shutdown_poll_wait.
  - intros e' k d q Hk H. unfold shutdown_resume. rewrite Hk.
    by destruct (shutdown_poll_leave e' d (with_sleepers (delete k (sleepers q)) q) H).
  - intros e' k q Hk. unfold shutdown_resume. by rewrite Hk.
  - by right.
  - intros evs. split; [by apply run_flag|]. rewrite run_no_spawn by done.
    rewrite Hp1. unfold shutdown_poll. branches; shape; done.
Qed.

(** ** Well-formed states *)

Lemma JsMap_keys_set {V} k (v : V) m x :
  x ∈ JsMap.keys (JsMap.set k v m) <-> x = k \/ x ∈ JsMap.keys m.
Proof.
  unfold JsMap.keys. induction m as [|[k' v'] m IH]; simpl.
  - rewrite list_elem_of_singleton, elem_of_nil. tauto.
  - destruct (Z.eqb_spec k k') as [->|Hne]; simpl.
    + rewrite !elem_of_cons. tauto.
    + rewrite !elem_of_cons, IH. tauto.
Qed.

Lemma JsMap_keys_delete {V} k (m : JsMap.t V) x :
  x ∈ JsMap.keys (JsMap.delete k m) -> x ∈ JsMap.keys m.
Proof.
  unfold JsMap.keys. induction m as [|[k' v'] m IH]; simpl; [done|].
  destruct (Z.eqb_spec k k') as [->|Hne]; simpl; rewrite !elem_of_cons; tauto.
Qed.

Lemma wf_map_set k r m n : wf_map m n -> r < n -> wf_map (JsMap.set k r m) n.
Proof.
  unfold wf_map, JsMap.keys. intros [Hnd Hall] Hr.
  induction m as [|[k' v'] m IH]; simpl.
  - split; [apply NoDup_singleton|by repeat constructor].
  - apply NoDup_cons in Hnd as [Hk' Hnd]. apply Forall_cons in Hall as [Hv' Hall].
    destruct (Z.eqb_spec k k') as [->|Hne]; simpl.
    + split; [by apply NoDup_cons|by constructor].
    + destruct (IH Hnd Hall) as [IH1 IH2]. split; [|by constructor].
      apply NoDup_cons. split; [|done].
      intros Hin. apply (JsMap_keys_set k r m k') in Hin as [?|?]; [congruence|done].
Qed.

Lemma wf_map_delete k m n : wf_map m n -> wf_map (JsMap.delete k m) n.
Proof.
  unfold wf_map, JsMap.keys. intros [Hnd Hall].
  induction m as [|[k' v'] m IH]; simpl; [done|].
  apply NoDup_cons in Hnd as [Hk' Hnd]. apply Forall_cons in Hall as [Hv' Hall].
  destruct (Z.eqb_spec k k') as [->|Hne]; simpl; [done|].
  destruct (IH Hnd Hall) as [IH1 IH2]. split; [|by constructor].
  apply NoDup_cons. split; [|done]. intros Hin. by apply JsMap_keys_delete in Hin.
Qed.

Lemma wf_map_mono m n n' : wf_map m n -> n <= n' -> wf_map m n'.
Proof.
  intros [Hnd Hall] Hn. split; [done|].
  eapply Forall_impl; [exact Hall|]. simpl. intros; lia.
Qed.

Lemma wf_map_nil n : wf_map [] n.
Proof. split; [apply NoDup_nil_2|constructor]. Qed.


Lemma JsMap_get_valid k (m : JsMap.t WRef) n r :
  wf_map m n -> JsMap.get k m = Some r -> r < n.
Proof.
  intros [_ Hall]. induction m as [|[k' v'] m IH]; simpl; [done|].
  apply Forall_cons in Hall as [Hv' Hall].
  destruct (Z.eqb_spec k k'); [|by apply IH]. intros [= <-]. done.
Qed.

Lemma wf_spawnWorker e p : wf p -> wf (spawnWorker e p).
Proof.
  intros [Hw Hq Hh]. split; simpl; [|done|].
  - rewrite length_app. simpl. apply wf_map_set; [|lia].
    eapply wf_map_mono; [exact Hw|lia].
  - apply Forall_app. split; [done|]. by repeat constructor.
Qed.

Lemma wf_modify r f p :
  (forall i, currentTask i <> Some "" -> currentTask (f i) <> Some "") ->
  wf p -> wf (modify r f p).
Proof.
  intros Hf [Hw Hq Hh]. unfold modify. destruct (heap p !! r) as [i|] eqn:Hi; [|done].
  split; simpl; [by rewrite length_insert|done|].
  apply Forall_insert; [done|]. apply Hf. by eapply (Forall_lookup_1 _ _ _ _ Hh).
Qed.

Lemma wf_with_taskQueue q p :
  Forall (fun t => t_id t <> "") q -> wf p -> wf (with_taskQueue q p).
Proof. intros Hq' [Hw Hq Hh]. by split. Qed.

Lemma wf_with_workers m p :
  wf_map m (length (heap p)) -> wf p -> wf (with_workers m p).
Proof. intros Hm [Hw Hq Hh]. by split. Qed.

Lemma wf_ghost p p' :
  workers p' = workers p -> heap p' = heap p -> taskQueue p' = taskQueue p ->
  wf p -> wf p'.
Proof. intros Hw' Hh' Hq' [Hw Hq Hh]. split; by rewrite ?Hw', ?Hh', ?Hq'. Qed.

Lemma wf_assign e r t p : t_id t <> "" -> wf p -> wf (assign e r t p).
Proof.
  intros Ht Hp. unfold assign.
  eapply wf_ghost; [..|apply (wf_modify r (set_assigned (t_id t) (now e)) p)]; try done.
  simpl. congruence.
Qed.

Lemma wf_dispatch e l p :
  Forall (fun t => t_id t <> "") l -> wf p -> wf (dispatch e l p).
Proof.
  revert p. induction l as [|t l IH]; intros p Hl Hp; simpl; [done|].
  apply Forall_cons in Hl as [Ht Hl].
  destruct (getAvailableWorker p) as [r|]; [by apply IH, wf_assign|].
  destruct (_ <? _); [|done].
  destruct (getAvailableWorker (spawnWorker e p)) as [r|].
  - by apply IH, wf_assign, wf_spawnWorker.
  - by apply wf_spawnWorker.
Qed.

Lemma sort_insert_perm {A} (cmp : A -> A -> Z) x l : sort_insert cmp x l ≡ₚ x :: l.
Proof.
  induction l as [|y l IH]; simpl; [done|].
  destruct (0 <? cmp x y)%Z; [|done]. rewrite IH. apply Permutation_swap.
Qed.

Lemma js_sort_perm {A} (cmp : A -> A -> Z) l : js_sort cmp l ≡ₚ l.
Proof.
  unfold js_sort. induction l as [|x l IH]; simpl; [done|].
  by rewrite sort_insert_perm, IH.
Qed.

Lemma Forall_bool_filter {A} (P : A -> Prop) (f : A -> bool) l :
  Forall P l -> Forall P (List.filter f l).
Proof.
  induction 1 as [|x l Hx Hl IH]; simpl; [constructor|].
  destruct (f x); [by constructor|done].
Qed.

Lemma wf_processQueue e p : wf p -> wf (processQueue e p).
Proof.
  intros Hp. unfold processQueue. destruct (taskQueue p) as [|t q] eqn:Hq; [done|].
  destruct (isShuttingDown p); [done|].
  assert (Forall (fun t => t_id t <> "") (js_sort by_priority (t :: q))) as Hs.
  { rewrite js_sort_perm, <- Hq. apply Hp. }
  apply wf_dispatch; [|by apply wf_with_taskQueue].
  unfold pendingTasks. simpl. by apply Forall_bool_filter.
Qed.

Lemma wf_respawn e p : wf p -> wf (respawn e p).
Proof. intros Hp. unfold respawn. destruct (_ && _); [by apply wf_spawnWorker|done]. Qed.

Lemma wf_take i o f p :
  wf p -> wf (settle f o (with_taskQueue (delete i (taskQueue p)) p)).
Proof. intros [Hw Hq Hh]. split; simpl; [done| |done]. by apply Forall_delete. Qed.

Lemma wf_delete_worker k p : wf p -> wf (with_workers (JsMap.delete k (workers p)) p).
Proof. intros Hp. apply wf_with_workers; [|done]. apply wf_map_delete, Hp. Qed.

Lemma wf_rejectCurrent info err p : wf p -> wf (rejectCurrent info err p).
Proof.
  intros Hp. unfold rejectCurrent. destruct (truthy _); [|done].
  destruct (list_find _ _) as [[i t]|]; [|done]. by apply wf_take.
Qed.

Lemma wf_terminate r p : wf p -> wf (terminate r p).
Proof. by apply wf_ghost. Qed.

Lemma wf_cleanup_fold e l p : wf p -> wf (foldl (cleanupOne e) p l).
Proof.
  revert p. induction l as [|[k r] l IH]; intros p Hp; cbn [foldl]; [done|].
  apply IH. destruct (cleanupOne_cases e p k r) as [->|(info & _ & _ & _ & _ & ->)]; [done|].
  by apply (wf_delete_worker k (terminate r p)), wf_terminate.
Qed.

Lemma task_id_nonempty e rnd : task_id e rnd <> "".
Proof. unfold task_id. by destruct (pretty (now e)). Qed.

Lemma wf_shutdown_poll e d p : wf p -> wf (shutdown_poll e d p).
Proof.
  intros [Hw Hq Hh]. unfold shutdown_poll. destruct (_ && _); [done|].
  rewrite shutdown_drain_eq. by split.
Qed.

Lemma step_wf e ev p : wf p -> wf (step e ev p).
Proof.
  intros Hp. destruct ev; simpl.
  - unfold execute. destruct (isShuttingDown p); [done|].
    apply wf_processQueue. destruct Hp as [Hw Hq Hh]. split; simpl; [done| |done].
    apply Forall_app. split; [done|]. repeat constructor. apply task_id_nonempty.
  - unfold on_message, handleWorkerMessage.
    destruct (heap p !! r) as [wi|]; [|done].
    destruct (JsMap.get _ _) as [r'|]; [|done].
    assert (wf (modify r' (set_completed (now e)) p)) as Hp1 by by apply wf_modify.
    destruct (list_find _ _) as [[i t]|]; [|done].
    apply wf_processQueue. destruct (r_success result); by apply wf_take.
  - unfold on_error, handleWorkerError.
    destruct (heap p !! r) as [wi|]; [|done].
    assert (wf (modify r incr_errors p)) as Hp1 by by apply wf_modify.
    destruct (JsMap.get _ _) as [r'|]; [|done].
    destruct (heap _ !! r') as [wi'|]; [|done].
    apply wf_processQueue, wf_respawn.
    apply (wf_delete_worker _ (terminate r' _)), wf_terminate, wf_rejectCurrent, Hp1.
  - unfold on_exit. destruct (heap p !! r) as [wi|]; [|done].
    by apply wf_respawn, wf_delete_worker.
  - destruct (timers p !! k) as [tm|]; [|done].
    assert (wf (with_timers (delete k (timers p)) p)) as Hp1 by by apply (wf_ghost p).
    unfold on_timeout. destruct (heap _ !! _) as [wi|]; [|done].
    destruct (bool_decide _); [|done]. apply wf_modify; [done|].
    destruct (list_find _ _) as [[i t]|]; [|done]. by apply wf_take.
  - by apply wf_cleanup_fold.
  - unfold shutdown. by apply wf_shutdown_poll, (wf_ghost p).
  - unfold shutdown_resume. destruct (sleepers p !! k) as [[d|]|]; [| |done].
    + by apply wf_shutdown_poll, (wf_ghost p).
    + apply wf_with_workers; [apply wf_map_nil|]. by apply (wf_ghost p).
Qed.

Lemma constructor_wf o cpus e : wf (constructor o cpus e).
Proof.
  unfold constructor.
  match goal with |- wf (Nat.iter ?n _ ?p) => generalize n; intros k; set (p0 := p) end.
  induction k as [|k IH]; simpl.
  - split; simpl; [apply wf_map_nil|constructor|constructor].
  - by apply wf_spawnWorker.
Qed.


(** ** Worker crashes *)

Lemma modify_lookup r f p i :
  heap p !! r = Some i -> heap (modify r f p) !! r = Some (f i).
Proof.
  intros Hi. unfold modify. rewrite Hi. simpl.
  apply list_lookup_insert_eq. by eapply lookup_lt_Some.
Qed.

Lemma modify_minWorkers r f p : minWorkers (modify r f p) = minWorkers p.
Proof. by destruct (modify_shape r f p) as (h & -> & _). Qed.

Lemma modify_terminated r f p : terminated (modify r f p) = terminated p.
Proof. by destruct (modify_shape r f p) as (h & -> & _). Qed.

#[local] Hint Rewrite modify_minWorkers modify_terminated : frames.

Lemma rejectCurrent_frame info err p :
  workers (rejectCurrent info err p) = workers p
  /\ heap (rejectCurrent info err p) = heap p
  /\ isShuttingDown (rejectCurrent info err p) = isShuttingDown p
  /\ minWorkers (rejectCurrent info err p) = minWorkers p
  /\ terminated (rejectCurrent info err p) = terminated p.
Proof. unfold rejectCurrent. branches; done. Qed.

Lemma respawn_frame e p :
  taskQueue (respawn e p) = taskQueue p
  /\ settled (respawn e p) = settled p
  /\ terminated (respawn e p) = terminated p.
Proof. unfold respawn. by destruct (_ && _). Qed.



(** ** Settling each promise once *)

Lemma dispatch_taskQueue e l p : taskQueue (dispatch e l p) = taskQueue p.
Proof. by destruct (dispatch_shape e l p) as (h & w & ps & tms & ->). Qed.

Lemma dispatch_settled e l p : settled (dispatch e l p) = settled p.
Proof. by destruct (dispatch_shape e l p) as (h & w & ps & tms & ->). Qed.

(** A dispatch pass leaves the queue as it is or sorted, and settles
    nothing. *)
Lemma processQueue_taskQueue e p :
  taskQueue (processQueue e p)
  = match taskQueue p with
    | [] => []
    | _ :: _ => if isShuttingDown p then taskQueue p
                else js_sort by_priority (taskQueue p)
    end.
Proof.
  unfold processQueue. destruct (taskQueue p) as [|t q] eqn:Hq; [done|].
  destruct (isShuttingDown p); [done|]. by rewrite dispatch_taskQueue.
Qed.

Lemma processQueue_taskQueue_perm e p : taskQueue (processQueue e p) ≡ₚ taskQueue p.
Proof.
  rewrite processQueue_taskQueue. destruct (taskQueue p); [done|].
  destruct (isShuttingDown p); [done|]. apply js_sort_perm.
Qed.

Lemma processQueue_settled e p : settled (processQueue e p) = settled p.
Proof. by destruct (processQueue_shape e p) as (h & w & q & ps & tms & ->). Qed.

Lemma processQueue_nextFut e p : nextFut (processQueue e p) = nextFut p.
Proof. by destruct (processQueue_shape e p) as (h & w & q & ps & tms & ->). Qed.

Lemma processQueue_ledger e p : ledger (processQueue e p) ≡ₚ ledger p.
Proof.
  unfold ledger. by rewrite processQueue_taskQueue_perm, processQueue_settled.
Qed.

(** Taking a task out of the queue and settling its promise moves one
    entry of the ledger. *)
Lemma take_ledger i t o p :
  taskQueue p !! i = Some t ->
  ledger (settle (t_fut t) o (with_taskQueue (delete i (taskQueue p)) p)) ≡ₚ ledger p.
Proof.
  intros Hi. unfold ledger. simpl. rewrite map_app. simpl.
  rewrite (delete_Permutation (taskQueue p) i t Hi) at 2. simpl.
  rewrite (Permutation_app_comm (map fst (settled p)) [t_fut t]). simpl.
  by rewrite Permutation_middle.
Qed.

Lemma ledger_ghost p p' :
  taskQueue p' = taskQueue p -> settled p' = settled p -> ledger p' = ledger p.
Proof. unfold ledger. by intros -> ->. Qed.

Lemma rejectCurrent_ledger info err p : ledger (rejectCurrent info err p) ≡ₚ ledger p.
Proof.
  unfold rejectCurrent. destruct (truthy _); [|done].
  destruct (list_find _ _) as [[i t]|] eqn:Hf; [|done].
  apply take_ledger. by apply list_find_Some in Hf as (? & _).
Qed.

Lemma respawn_ledger e p : ledger (respawn e p) = ledger p.
Proof. unfold respawn. by destruct (_ && _). Qed.

Lemma shutdown_poll_ledger e d p : ledger (shutdown_poll e d p) ≡ₚ ledger p.
Proof.
  unfold shutdown_poll. destruct (_ && _); [done|]. rewrite shutdown_drain_eq.
  unfold ledger. simpl. rewrite map_app, map_map. simpl.
  apply Permutation_app_comm.
Qed.

Lemma step_ledger e ev p :
  ledger (step e ev p) ≡ₚ
  ledger p ++ seq (nextFut p) (nextFut (step e ev p) - nextFut p).
Proof.
  assert (forall p', nextFut p' = nextFut p -> ledger p' ≡ₚ ledger p ->
                     ledger p' ≡ₚ ledger p ++ seq (nextFut p) (nextFut p' - nextFut p)) as Hsame.
  { intros p' -> ->. by rewrite Nat.sub_diag, app_nil_r. }
  destruct ev; simpl.
  - unfold execute. destruct (isShuttingDown p); [by apply Hsame|].
    rewrite processQueue_ledger, processQueue_nextFut. unfold ledger. simpl.
    replace (S (nextFut p) - nextFut p) with 1 by lia. simpl.
    rewrite map_app. simpl. rewrite <- !app_assoc. apply Permutation_app_head.
    apply Permutation_app_comm.
  - apply Hsame; unfold on_message, handleWorkerMessage;
      destruct (heap p !! r) as [wi|]; try done;
      destruct (JsMap.get _ _) as [r'|]; try done;
      destruct (list_find _ _) as [[i t]|] eqn:Hf;
      rewrite ?processQueue_nextFut, ?processQueue_ledger.
    + destruct (r_success result); simpl; by autorewrite with frames.
    + by autorewrite with frames.
    + apply list_find_Some in Hf as (Hi & _).
      destruct (r_success result);
        (etransitivity; [by apply take_ledger|]); apply reflexive_eq, ledger_ghost;
        by autorewrite with frames.
    + apply reflexive_eq, ledger_ghost; by autorewrite with frames.
  - unfold on_error, handleWorkerError.
    destruct (heap p !! r) as [wi|]; [|by apply Hsame].
    destruct (JsMap.get _ _) as [r'|];
      [|apply Hsame; [|apply reflexive_eq, ledger_ghost]; by autorewrite with frames].
    destruct (heap _ !! r') as [wi'|];
      [|apply Hsame; [|apply reflexive_eq, ledger_ghost]; by autorewrite with frames].
    apply Hsame.
    + rewrite processQueue_nextFut. unfold respawn, rejectCurrent.
      branches; simpl; by autorewrite with frames.
    + rewrite processQueue_ledger, respawn_ledger.
      etransitivity; [|etransitivity; [apply (rejectCurrent_ledger wi' (WorkerFault error))|]].
      * apply reflexive_eq, ledger_ghost; done.
      * apply reflexive_eq, ledger_ghost; by autorewrite with frames.
  - apply Hsame; unfold on_exit; destruct (heap p !! r) as [wi|]; try done.
    + unfold respawn. by destruct (_ && _).
    + by rewrite respawn_ledger.
  - destruct (timers p !! k) as [tm|]; [|by apply Hsame].
    apply Hsame; unfold on_timeout; simpl;
      destruct (heap p !! _) as [wi|]; try done;
      destruct (bool_decide _); try done;
      destruct (list_find _ _) as [[i t]|] eqn:Hf; autorewrite with frames; try done.
    + apply list_find_Some in Hf as (Hi & _).
      etransitivity; [|apply (take_ledger i t (Rejected (NewError "Task timeout")) p Hi)].
      apply reflexive_eq, ledger_ghost; by autorewrite with frames.
    + apply reflexive_eq, ledger_ghost; by autorewrite with frames.
  - unfold cleanupIdleWorkers.
    destruct (cleanup_fold_shape e (workers p) p) as (w & tr & ->). by apply Hsame.
  - apply Hsame; unfold shutdown.
    + unfold shutdown_poll. branches; shape; done.
    + by rewrite shutdown_poll_ledger.
  - apply Hsame; unfold shutdown_resume; destruct (sleepers p !! k) as [[d|]|]; try done.
    + unfold shutdown_poll. branches; shape; done.
    + by rewrite shutdown_poll_ledger.
Qed.

Lemma step_ledger_seq e ev p :
  ledger p ≡ₚ seq 0 (nextFut p) ->
  ledger (step e ev p) ≡ₚ seq 0 (nextFut (step e ev p)).
Proof.
  intros Hp. rewrite step_ledger, Hp, <- seq_app. f_equiv.
  pose proof (step_nextFut e ev p). lia.
Qed.

Lemma constructor_ledger o cpus e :
  ledger (constructor o cpus e) = [] /\ nextFut (constructor o cpus e) = 0.
Proof.
  unfold constructor.
  match goal with
  | |- context [Nat.iter ?n (spawnWorker e) ?p] =>
      destruct (iter_spawn_frame e n p) as (h & w & ->)
  end. done.
Qed.

Lemma run_ledger o cpus e0 evs :
  ledger (run evs (constructor o cpus e0))
  ≡ₚ seq 0 (nextFut (run evs (constructor o cpus e0))).
Proof.
  apply (run_invariant (fun p => ledger p ≡ₚ seq 0 (nextFut p))).
  - apply step_ledger_seq.
  - by destruct (constructor_ledger o cpus e0) as [-> ->].
Qed.





(** ** What a dispatch pass posts *)

Lemma JsMap_set_in {V} k (v : V) m : (k, v) ∈ JsMap.set k v m.
Proof.
  induction m as [|[k' v'] m IH]; simpl; [by left|].
  destruct (k =? k')%Z; [by left|by right].
Qed.

(** A worker that has just been spawned is available. *)
Lemma spawnWorker_available e p : getAvailableWorker (spawnWorker e p) <> None.
Proof.
  unfold getAvailableWorker. intros Hnone.
  assert (is_idle (spawnWorker e p) (length (heap p)) = false) as Hidle.
  { apply (find_none _ _ Hnone (length (heap p))).
    apply list_elem_of_In. unfold JsMap.values.
    apply (list_elem_of_fmap_2 snd _ (fresh e (length (heap p)), length (heap p))).
    simpl. apply JsMap_set_in. }
  unfold is_idle in Hidle. simpl in Hidle. by rewrite list_lookup_middle in Hidle.
Qed.

Lemma assign_posted e r t p : posted (assign e r t p) = posted p ++ [(r, t)].
Proof. by destruct (assign_shape e r t p) as (h & tms & -> & _). Qed.

(** The loop posts the first [n] pending tasks, in order, and stops
    early only with no idle worker and the map at [maxWorkers]. *)
Lemma dispatch_posted e l p :
  exists n,
    map snd (posted (dispatch e l p)) = map snd (posted p) ++ take n l
    /\ (n < length l ->
        getAvailableWorker (dispatch e l p) = None
        /\ maxWorkers p <= JsMap.size (workers (dispatch e l p))).
Proof.
  revert p. induction l as [|t l IH]; intros p; simpl.
  - exists 0. rewrite app_nil_r. split; [done|]. simpl. lia.
  - destruct (getAvailableWorker p) as [r|] eqn:Hav.
    + destruct (IH (assign e r t p)) as (n & Hn & Hstop). exists (S n).
      rewrite Hn, assign_posted, map_app, <- app_assoc. split; [done|].
      rewrite assign_maxWorkers in Hstop. intros ?. apply Hstop. lia.
    + destruct (JsMap.size (workers p) <? maxWorkers p) eqn:Hlt.
      * pose proof (spawnWorker_available e p) as Hsp.
        destruct (getAvailableWorker (spawnWorker e p)) as [r|]; [|done].
        destruct (IH (assign e r t (spawnWorker e p))) as (n & Hn & Hstop). exists (S n).
        rewrite Hn, assign_posted, map_app, <- app_assoc. split; [done|].
        rewrite assign_maxWorkers in Hstop. intros ?. apply Hstop. lia.
      * exists 0. rewrite app_nil_r. split; [done|]. intros _.
        split; [done|]. by apply Nat.ltb_ge in Hlt.
Qed.

Lemma subseteq_bool_filter {A} (f : A -> bool) (l : list A) : List.filter f l ⊆ l.
Proof. intros x Hx. apply list_elem_of_In in Hx. apply list_elem_of_In. by apply filter_In in Hx as [? _]. Qed.

(** ** In-flight tasks stay in the queue *)

Lemma filter_partition_length {A} (f : A -> bool) (l : list A) :
  length l = length (List.filter f l) + length (List.filter (fun x => negb (f x)) l).
Proof. induction l as [|x l IH]; simpl; [done|]. destruct (f x); simpl; lia. Qed.

(** C10: a promise handed out by [execute] is behind a queued task
    exactly as long as it is unsettled; a dispatch pass takes nothing out
    of the queue, so the tasks it posts to workers are still queued;
    hence [queuedTasks] is the number of waiting tasks plus the number
    of in-flight ones, and the loop of [shutdown] keeps waiting while
    in-flight tasks remain before the deadline. *)
Theorem in_flight_tasks_stay_queued (o : Options) (cpus : nat) (e0 : Env)
    (evs : list (Env * Event)) :
  let p := run evs (constructor o cpus e0) in
  (forall f, f < nextFut p ->
     (f ∈ map t_fut (taskQueue p) <-> f ∉ map fst (settled p)))
  /\ (forall e,
        taskQueue (processQueue e p) ≡ₚ taskQueue p
        /\ settled (processQueue e p) = settled p
        /\ exists new,
             map snd (posted (processQueue e p)) = map snd (posted p) ++ new
             /\ new ⊆ taskQueue (processQueue e p))
  /\ queuedTasks (getStats p) = length (pendingTasks p) + length (inFlightTasks p)
  /\ (forall e d,
        inFlightTasks p <> [] -> (now e < d)%Z ->
        shutdown_poll e d p = with_sleepers (sleepers p ++ [Polling d]) p).
Proof.
  intros p. pose proof (run_ledger o cpus e0 evs) as Hl. fold p in Hl.
  unfold ledger in Hl. clearbody p. split; [|split; [|split]].
  - intros f Hf.
    assert (NoDup (map t_fut (taskQueue p) ++ map fst (settled p))) as Hnd.
    { rewrite Hl. apply NoDup_seq. }
    apply NoDup_app in Hnd as (_ & Hdisj & _).
    split; [apply Hdisj|]. intros Hns.
    assert (f ∈ map t_fut (taskQueue p) ++ map fst (settled p)) as Hin.
    { rewrite Hl. apply list_elem_of_In, in_seq. lia. }
    apply elem_of_app in Hin as [?|?]; done.
  - intros e. split; [apply processQueue_taskQueue_perm|].
    split; [apply processQueue_settled|].
    unfold processQueue. destruct (taskQueue p) as [|t q] eqn:Hq.
    { exists []. rewrite app_nil_r. split; [done|]. apply list_subseteq_nil. }
    destruct (isShuttingDown p).
    { exists []. rewrite app_nil_r. split; [done|]. apply list_subseteq_nil. }
    edestruct dispatch_posted as (n & Hn & _). rewrite Hn. simpl.
    eexists. split; [reflexivity|]. rewrite dispatch_taskQueue. simpl.
    etransitivity; [apply subseteq_take|]. apply subseteq_bool_filter.
  - simpl. apply filter_partition_length.
  - intros e d Hin Hd. apply shutdown_poll_wait; [|done].
    intros Hq. apply Hin. unfold inFlightTasks. by rewrite Hq.
Qed.

(** ** Dispatch order *)
















(** ** Task timeouts *)

(** A turn adds a task to the queue only through [execute]. *)
Lemma step_queue_origin e ev p t :
  t ∈ taskQueue (step e ev p) ->
  t ∈ taskQueue p
  \/ exists type data timeout priority rnd,
       ev = EvExecute type data timeout priority rnd /\ t_id t = task_id e rnd.
Proof.
  assert (forall i o f q, t ∈ taskQueue (settle f o (with_taskQueue (delete i (taskQueue q)) q)) ->
                          t ∈ taskQueue q) as Htake.
  { intros i o f q. simpl. apply sublist_subseteq, sublist_delete. }
  destruct ev; simpl.
  - unfold execute. destruct (isShuttingDown p); [by left|].
    rewrite processQueue_taskQueue_perm. simpl. intros [?|Hin]%elem_of_app; [by left|].
    apply list_elem_of_singleton in Hin as ->. right. by eexists _, _, _, _, _.
  - intros Hin. left. revert Hin. unfold on_message, handleWorkerMessage.
    destruct (heap p !! r) as [wi|]; [|done].
    destruct (JsMap.get _ _) as [r'|]; [|done].
    destruct (list_find _ _) as [[i t']|]; [|by autorewrite with frames].
    rewrite processQueue_taskQueue_perm. autorewrite with frames.
    destruct (r_success result); simpl; apply sublist_subseteq, sublist_delete.
  - intros Hin. left. revert Hin. unfold on_error, handleWorkerError.
    destruct (heap p !! r) as [wi|]; [|done].
    destruct (JsMap.get _ _) as [r'|]; [|by autorewrite with frames].
    destruct (heap _ !! r') as [wi'|]; [|by autorewrite with frames].
    rewrite processQueue_taskQueue_perm.
    destruct (respawn_frame e (with_workers
                (JsMap.delete (w_key wi)
                   (workers (terminate r' (rejectCurrent wi' (WorkerFault error)
                                             (modify r incr_errors p)))))
                (terminate r' (rejectCurrent wi' (WorkerFault error)
                                 (modify r incr_errors p))))) as (-> & _).
    simpl. unfold rejectCurrent. destruct (truthy _); [|by autorewrite with frames].
    destruct (list_find _ _) as [[i t']|]; [|by autorewrite with frames].
    simpl. autorewrite with frames. apply sublist_subseteq, sublist_delete.
  - intros Hin. left. revert Hin. unfold on_exit.
    destruct (heap p !! r) as [wi|]; [|done].
    by destruct (respawn_frame e (with_workers (JsMap.delete (w_key wi) (workers p)) p))
      as (-> & _).
  - intros Hin. left. revert Hin. destruct (timers p !! k) as [tm|]; [|done].
    unfold on_timeout. simpl. destruct (heap p !! _) as [wi|]; [|done].
    destruct (bool_decide _); [|done]. autorewrite with frames.
    destruct (list_find _ _) as [[i t']|]; [|done].
    simpl. apply sublist_subseteq, sublist_delete.
  - intros Hin. left. revert Hin. unfold cleanupIdleWorkers.
    by destruct (cleanup_fold_shape e (workers p) p) as (w & tr & ->).
  - intros Hin. left. revert Hin. unfold shutdown, shutdown_poll.
    destruct (_ && _); [done|]. rewrite shutdown_drain_eq. simpl. by intros ?%elem_of_nil.
  - intros Hin. left. revert Hin. unfold shutdown_resume, shutdown_poll.
    destruct (sleepers p !! k) as [[d|]|]; [|done|done].
    destruct (_ && _); [done|]. rewrite shutdown_drain_eq. simpl. by intros ?%elem_of_nil.
Qed.

Lemma run_no_task_named tid evs p :
  Forall (fun turn => ~ reuses_id tid turn) evs ->
  no_task_named tid p -> no_task_named tid (run evs p).
Proof.
  revert p. induction evs as [|[e ev] evs IH]; intros p Hevs Hp; [done|].
  apply Forall_cons in Hevs as [Hev Hevs]. rewrite run_cons. apply IH; [done|].
  unfold no_task_named in *. rewrite Forall_forall in *. intros t Ht.
  apply step_queue_origin in Ht as [Ht|(ty & da & to & pr & rnd & -> & Hid)].
  - by apply Hp.
  - simpl in Hev. congruence.
Qed.

(** A completion message whose task id matches no queued task settles
    nothing and leaves the queue alone. *)
Lemma on_message_dropped e r result p :
  no_task_named (r_taskId result) p ->
  settled (on_message e r result p) = settled p
  /\ taskQueue (on_message e r result p) = taskQueue p.
Proof.
  intros Hp. unfold on_message, handleWorkerMessage.
  destruct (heap p !! r) as [wi|]; [|done].
  destruct (JsMap.get _ _) as [r'|]; [|done].
  destruct (list_find _ _) as [[i t]|] eqn:Hf; [|by autorewrite with frames].
  apply list_find_Some in Hf as (Hi & Hid & _).
  rewrite modify_taskQueue in Hi. apply list_elem_of_lookup_2 in Hi.
  unfold no_task_named in Hp. rewrite Forall_forall in Hp. by destruct (Hp t Hi).
Qed.

Lemma find_unique_task (q : list WorkerTask) (task : WorkerTask) :
  NoDup (map t_fut q) -> task ∈ q ->
  (forall t, t ∈ q -> t_id t = t_id task -> t = task) ->
  exists i,
    list_find (fun t => t_id t = t_id task) q = Some (i, task)
    /\ q !! i = Some task
    /\ Forall (fun t => t_id t <> t_id task) (delete i q).
Proof.
  intros Hnd Hin Huniq.
  destruct (list_find_elem_of (fun t => t_id t = t_id task) q task Hin eq_refl)
    as [[i t] Hf].
  pose proof Hf as Hf'. apply list_find_Some in Hf' as (Hi & Hid & _).
  assert (t = task) as -> by (apply Huniq; [by eapply list_elem_of_lookup_2|done]).
  exists i. split; [done|]. split; [done|].
  apply NoDup_fmap_1 in Hnd. rewrite (delete_Permutation q i task Hi) in Hnd.
  apply NoDup_cons in Hnd as [Hnotin _].
  rewrite Forall_forall. intros t Ht Heq.
  assert (t = task) as ->; [|done].
  apply Huniq; [|done]. eapply sublist_subseteq; [apply sublist_delete|done].
Qed.

(** C5 (as amended): when a timer fires while its worker's
    [currentTask] still names its task, the worker record is reset to
    idle; if the task is still in the queue (and no other queued task
    has its id) it is taken out and its promise rejected with the
    timeout error, and from then on, as long as no new task is given the
    same id, a completion message for that id settles nothing and leaves
    the queue alone; if no queued task has the id any more, the firing
    settles nothing. *)
Theorem timeout_rejects_task_still_queued (o : Options) (cpus : nat) (e0 : Env)
    (evs : list (Env * Event)) (e : Env) (k : nat) (tm : Timer) (w : WorkerInfo) :
  let p := run evs (constructor o cpus e0) in
  let task := tm_task tm in
  let p' := step e (EvTimeout k) p in
  timers p !! k = Some tm ->
  heap p !! tm_worker tm = Some w ->
  currentTask w = Some (t_id task) ->
  heap p' !! tm_worker tm = Some (set_idle w)
  /\ (task ∈ taskQueue p ->
      (forall t, t ∈ taskQueue p -> t_id t = t_id task -> t = task) ->
      (exists i, taskQueue p !! i = Some task /\ taskQueue p' = delete i (taskQueue p))
      /\ settled p' = settled p ++ [(t_fut task, Rejected (NewError "Task timeout"))]
      /\ TaskTimeout (NewError "Task timeout")
      /\ forall later e' r result,
           Forall (fun turn => ~ reuses_id (t_id task) turn) later ->
           r_taskId result = t_id task ->
           let q := run later p' in
           settled (step e' (EvMessage r result) q) = settled q
           /\ taskQueue (step e' (EvMessage r result) q) = taskQueue q)
  /\ (no_task_named (t_id task) p -> settled p' = settled p /\ taskQueue p' = taskQueue p).
Proof.
  intros p task p' Hk Hw Hcur.
  pose proof (run_ledger o cpus e0 evs) as Hl. fold p in Hl. unfold ledger in Hl.
  clearbody p. subst p'. simpl. rewrite Hk. unfold on_timeout. simpl.
  rewrite Hw. fold task. rewrite bool_decide_eq_true_2 by done.
  split; [|split].
  - apply modify_lookup. by destruct (list_find _ _) as [[i t]|].
  - intros Hin Huniq.
    assert (NoDup (map t_fut (taskQueue p))) as Hnd.
    { eapply (NoDup_app _ (map fst (settled p))). rewrite Hl. apply NoDup_seq. }
    destruct (find_unique_task (taskQueue p) task Hnd Hin Huniq) as (i & -> & Hi & Hgone).
    autorewrite with frames. simpl. split; [by exists i|]. split; [done|]. split; [done|].
    intros later e' r result Hlater Hres.
    apply on_message_dropped. rewrite Hres. apply run_no_task_named; [done|].
    unfold no_task_named. by autorewrite with frames.
  - intros Hnone. destruct (list_find _ _) as [[i t]|] eqn:Hf; [|by autorewrite with frames].
    apply list_find_Some in Hf as (Hi & Hid & _). apply list_elem_of_lookup_2 in Hi.
    unfold no_task_named in Hnone. rewrite Forall_forall in Hnone. by destruct (Hnone t Hi).
Qed.

(** ** The timeout claim on a concrete run, and instances of the theorems *)

(** C5 (as stated) fails: a worker crashes while holding a task, so the
    task is rejected with the worker's error and leaves the queue, while
    the crashed worker's record still names it; when the task's timer
    then fires, no promise is rejected with the timeout error. *)
Lemma timeout_after_crash_rejects_nothing :
  ~ (forall (o : Options) (cpus : nat) (e0 : Env) (evs : list (Env * Event))
       (e : Env) (k : nat) (tm : Timer) (w : WorkerInfo),
        let p := run evs (constructor o cpus e0) in
        timers p !! k = Some tm ->
        heap p !! tm_worker tm = Some w ->
        currentTask w = Some (t_id (tm_task tm)) ->
        exists err,
          TaskTimeout err
          /\ (t_fut (tm_task tm), Rejected err) ∈ settled (step e (EvTimeout k) p)).
Proof.
  intros H.
  destruct (H one_worker 8 (clock 1000) submit_then_crash (clock 70000) 0 timer_a
              {| w_key := 0%Z; busy := true; currentTask := Some "1001-a";
                 tasksCompleted := 0; errors := 1; lastActivity := 1001%Z |}
              eq_refl eq_refl eq_refl) as (err & Herr & Hin).
  vm_compute in Hin. apply list_elem_of_singleton in Hin.
  unfold TaskTimeout in Herr. congruence.
Qed.





(** The same run, turn by turn. *)
Example displaced_worker_crash :
  let p := run submit_two_colliding (constructor one_to_two 8 (stuck_clock 1000)) in
  let p' := step (stuck_clock 1002) (EvError 0 "boom") p in
  workers p = [(7%Z, 1)]
  /\ map snd (posted p) = [task_a; task_b]
  /\ map fst (posted p) = [0; 1]
  /\ settled p' = [(1, Rejected (WorkerFault "boom"))]
  /\ task_a ∈ taskQueue p'
  /\ terminated p' = [1].
Proof. vm_compute. repeat split; repeat constructor. Qed.

(** The bounds, on a pool of one to two workers that grew and went idle. *)
Lemma workers_within_bounds_witness :
  minWorkers (constructor one_to_two 8 (clock 1000))
  <= maxWorkers (constructor one_to_two 8 (clock 1000))
  /\ busyWorkers (getStats (run grow_and_finish (constructor one_to_two 8 (clock 1000))))
     <= totalWorkers (getStats (run grow_and_finish (constructor one_to_two 8 (clock 1000)))).
Proof.
  split; [vm_compute; lia|].
  apply (workers_within_bounds one_to_two 8 (clock 1000) grow_and_finish).
  vm_compute; lia.
Defined.

(** [execute] after [shutdown] and a sweep, on a pool of one worker. *)
Lemma execute_after_shutdown_witness :
  isShuttingDown (shutdown (clock 2000) None (constructor one_worker 8 (clock 1000))) = true
  /\ step (clock 3000) (EvExecute "hash" "z" None None "c")
       (run [(clock 2500, EvCleanup)]
          (shutdown (clock 2000) None (constructor one_worker 8 (clock 1000))))
     = run [(clock 2500, EvCleanup)]
         (shutdown (clock 2000) None (constructor one_worker 8 (clock 1000))).
Proof.
  split; [reflexivity|].
  apply (execute_after_shutdown (clock 3000) "hash" "z" None None "c"
           [(clock 2500, EvCleanup)]
           (shutdown (clock 2000) None (constructor one_worker 8 (clock 1000)))).
  reflexivity.
Defined.

(** The sweep on two idle workers with [minWorkers = 1]. *)
Lemma cleanup_keeps_minimum_witness :
  minWorkers (run grow_and_finish (constructor one_to_two 8 (clock 1000)))
  <= totalWorkers (getStats (run grow_and_finish (constructor one_to_two 8 (clock 1000))))
  /\ minWorkers (cleanupIdleWorkers (clock 100000)
                   (run grow_and_finish (constructor one_to_two 8 (clock 1000))))
     <= totalWorkers
          (getStats (cleanupIdleWorkers (clock 100000)
                       (run grow_and_finish (constructor one_to_two 8 (clock 1000))))).
Proof.
  split; [vm_compute; lia|].
  apply (cleanup_keeps_minimum (clock 100000)
           (run grow_and_finish (constructor one_to_two 8 (clock 1000)))).
  vm_compute; lia.
Defined.


(** The timer of the only task fires while its worker still holds it. *)
Lemma timeout_rejects_task_still_queued_witness :
  timers (run submit_a (constructor one_worker 8 (clock 1000))) !! 0 = Some timer_a
  /\ heap (run submit_a (constructor one_worker 8 (clock 1000))) !! tm_worker timer_a
     = Some busy_with_a
  /\ currentTask busy_with_a = Some (t_id (tm_task timer_a))
  /\ heap (step (clock 61001) (EvTimeout 0)
             (run submit_a (constructor one_worker 8 (clock 1000)))) !! tm_worker timer_a
     = Some (set_idle busy_with_a).
Proof.
  split; [reflexivity|]. split; [reflexivity|]. split; [reflexivity|].
  apply (timeout_rejects_task_still_queued one_worker 8 (clock 1000) submit_a
           (clock 61001) 0 timer_a busy_with_a eq_refl eq_refl eq_refl).
Defined.

(** ** The scenarios of the specification, run *)

(** Priority ordering: with the only worker busy, the task of priority 5
    submitted last is posted before the task of priority 1. *)
Example higher_priority_posted_first :
  map (fun m => t_id (snd m))
    (posted (run (three_tasks ++ [(clock 1500, EvMessage 0 done_a)])
               (constructor one_worker 8 (clock 1000))))
  = ["1001-a"; "1003-c"].
Proof. vm_compute. reflexivity. Qed.

(** Timeout: the task is rejected, the worker is idle again, and the
    late completion message settles nothing. *)
Example timeout_then_late_message :
  let p := run (submit_a ++ [(clock 61001, EvTimeout 0);
                             (clock 62000, EvMessage 0 done_a)])
             (constructor one_worker 8 (clock 1000)) in
  settled p = [(0, Rejected (NewError "Task timeout"))]
  /\ taskQueue p = []
  /\ idleWorkers (getStats p) = 1.
Proof. vm_compute. done. Qed.

(** Idle shrink: two workers, both idle past [idleTimeout]; the sweep
    leaves one. *)
Example idle_sweep_shrinks_to_minimum :
  totalWorkers (getStats (run (grow_and_finish ++ [(clock 100000, EvCleanup)])
                            (constructor one_to_two 8 (clock 1000)))) = 1.
Proof. vm_compute. reflexivity. Qed.

(** Shutdown draining: the posted task and the two waiting ones are all
    still queued when the deadline passes, and all three are rejected;
    [execute] then throws. *)
Example shutdown_rejects_what_is_queued :
  let p := run (three_tasks ++ [(clock 2000, EvShutdown (Some 5000%Z));
                                (clock 2100, EvResume 0);
                                (clock 7000, EvResume 0);
                                (clock 7001, EvResume 0)])
             (constructor one_worker 8 (clock 1000)) in
  map fst (settled p) = [2; 1; 0]
  /\ Forall (fun s => snd s = Rejected (NewError "Worker pool shutdown")) (settled p)
  /\ queuedTasks (getStats p) = 0
  /\ totalWorkers (getStats p) = 0
  /\ execute (clock 8000) "hash" "w" None None "d" p
     = inl (NewError "Worker pool is shutting down").
Proof. vm_compute. repeat split; repeat constructor. Qed.

(** Two workers drawn the same key leave one entry in the map. *)
Example colliding_keys_share_an_entry :
  totalWorkers
    (getStats (constructor {| o_maxWorkers := Some 4; o_minWorkers := Some 2;
                              o_idleTimeout := None; o_taskTimeout := None |}
                 8 {| now := 1000; fresh := fun _ => 7%Z |})) = 1.
Proof. vm_compute. reflexivity. Qed.

(** * Further properties *)

(** ** Worker records and map entries along a run *)

Lemma JsMap_Forall_set {V} (P : Z * V -> Prop) k v m :
  Forall P m -> P (k, v) -> Forall P (JsMap.set k v m).
Proof.
  intros Hm Hkv. induction m as [|[k' v'] m IH]; simpl; [by repeat constructor|].
  apply Forall_cons in Hm as [Hk' Hm]. destruct (k =? k')%Z; constructor; auto.
Qed.

Lemma JsMap_delete_sublist {V} k (m : JsMap.t V) : JsMap.delete k m `sublist_of` m.
Proof.
  induction m as [|[k' v'] m IH]; simpl; [constructor|].
  destruct (k =? k')%Z; by constructor.
Qed.

Lemma JsMap_Forall_delete {V} (P : Z * V -> Prop) k m :
  Forall P m -> Forall P (JsMap.delete k m).
Proof.
  rewrite !Forall_forall. intros Hm x Hx. apply Hm.
  eapply elem_of_sublist; [exact Hx|apply JsMap_delete_sublist].
Qed.

Lemma JsMap_get_in {V} k (m : JsMap.t V) v : JsMap.get k m = Some v -> (k, v) ∈ m.
Proof.
  induction m as [|[k' v'] m IH]; simpl; [done|].
  destruct (Z.eqb_spec k k') as [->|Hne].
  - intros [= ->]. by left.
  - intros H. right. by apply IH.
Qed.

Lemma JsMap_get_None_keys {V} k (m : JsMap.t V) :
  JsMap.get k m = None -> Forall (fun kv => fst kv <> k) m.
Proof.
  induction m as [|[k' v'] m IH]; simpl; [constructor|].
  destruct (Z.eqb_spec k k') as [->|Hne]; [done|].
  intros H. constructor; [simpl; congruence|by apply IH].
Qed.

(** In a map with one entry per key, deleting a key leaves only other
    keys. *)
Lemma JsMap_delete_other_keys {V} k (m : JsMap.t V) :
  NoDup (JsMap.keys m) -> Forall (fun kv => fst kv <> k) (JsMap.delete k m).
Proof.
  unfold JsMap.keys. induction m as [|[k' v'] m IH]; simpl; [constructor|].
  intros [Hk' Hnd]%NoDup_cons. destruct (Z.eqb_spec k k') as [->|Hne].
  - rewrite Forall_forall. intros [k2 v2] Hin Heq. simpl in Heq. subst k2.
    apply Hk'. by apply (list_elem_of_fmap_2 fst _ (k', v2)).
  - constructor; [simpl; congruence|by apply IH].
Qed.

Lemma coherent_ghost p p' :
  heap p' = heap p -> workers p' = workers p -> coherent p -> coherent p'.
Proof.
  intros Hh Hw [He Hb]. split; [|by rewrite Hh].
  rewrite Hw. eapply Forall_impl; [exact He|]. unfold entry_ok. by rewrite Hh.
Qed.

(** An assignment to fields other than [errors] (the key is never
    assigned) keeps the entries in order. *)
Lemma entry_ok_modify r f p kr :
  (forall i, w_key (f i) = w_key i /\ errors (f i) = errors i) ->
  entry_ok p kr -> entry_ok (modify r f p) kr.
Proof.
  intros Hf (i & Hi & Hk & He). unfold entry_ok, modify.
  destruct (heap p !! r) as [j|] eqn:Hj; [|by exists i].
  destruct kr as [k r0]. simpl in *. destruct (decide (r0 = r)) as [->|Hne].
  - rewrite Hi in Hj. injection Hj as <-. exists (f i).
    rewrite list_lookup_insert_eq by (by eapply lookup_lt_Some).
    destruct (Hf i) as [-> ->]. done.
  - exists i. by rewrite list_lookup_insert_ne.
Qed.

Lemma coherent_modify r f p :
  (forall i, w_key (f i) = w_key i /\ errors (f i) = errors i) ->
  (forall i, (busy i = true <-> currentTask i <> None) ->
             (busy (f i) = true <-> currentTask (f i) <> None)) ->
  coherent p -> coherent (modify r f p).
Proof.
  intros Hf Hb [He Hbusy]. split.
  - rewrite modify_workers. eapply Forall_impl; [exact He|].
    intros kr. by apply entry_ok_modify.
  - unfold modify. destruct (heap p !! r) as [j|] eqn:Hj; [|done]. simpl.
    apply Forall_insert; [done|]. apply Hb. by eapply (Forall_lookup_1 _ _ _ _ Hbusy).
Qed.

Lemma coherent_spawnWorker e p : coherent p -> coherent (spawnWorker e p).
Proof.
  intros [He Hb]. split; simpl.
  - apply JsMap_Forall_set.
    + eapply Forall_impl; [exact He|]. intros kr (i & Hi & ?). exists i.
      split; [|done]. simpl. by apply lookup_app_l_Some.
    + eexists. simpl. rewrite list_lookup_middle by done. done.
  - apply Forall_app. split; [done|]. repeat constructor; simpl; done.
Qed.

Lemma coherent_assign e r t p : coherent p -> coherent (assign e r t p).
Proof.
  intros Hp. unfold assign.
  eapply coherent_ghost; [..|apply (coherent_modify r (set_assigned (t_id t) (now e)) p)];
    try done.
Qed.

Lemma coherent_dispatch e l p : coherent p -> coherent (dispatch e l p).
Proof.
  revert p. induction l as [|t l IH]; intros p Hp; simpl; [done|].
  destruct (getAvailableWorker p) as [r|]; [by apply IH, coherent_assign|].
  destruct (_ <? _); [|done].
  destruct (getAvailableWorker (spawnWorker e p)) as [r|].
  - by apply IH, coherent_assign, coherent_spawnWorker.
  - by apply coherent_spawnWorker.
Qed.

Lemma coherent_processQueue e p : coherent p -> coherent (processQueue e p).
Proof.
  intros Hp. unfold processQueue. destruct (taskQueue p); [done|].
  destruct (isShuttingDown p); [done|]. by apply coherent_dispatch, (coherent_ghost p).
Qed.

Lemma coherent_respawn e p : coherent p -> coherent (respawn e p).
Proof. intros Hp. unfold respawn. destruct (_ && _); [by apply coherent_spawnWorker|done]. Qed.

Lemma coherent_delete k p :
  coherent p -> coherent (with_workers (JsMap.delete k (workers p)) p).
Proof. intros [He Hb]. split; simpl; [|done]. by apply JsMap_Forall_delete. Qed.

Lemma coherent_rejectCurrent info err p : coherent p -> coherent (rejectCurrent info err p).
Proof.
  intros Hp. destruct (rejectCurrent_frame info err p) as (Hw & Hh & _).
  by apply (coherent_ghost p).
Qed.

Lemma coherent_cleanup_fold e l p : coherent p -> coherent (foldl (cleanupOne e) p l).
Proof.
  revert p. induction l as [|[k r] l IH]; intros p Hp; cbn [foldl]; [done|].
  apply IH. destruct (cleanupOne_cases e p k r) as [->|(info & _ & _ & _ & _ & ->)]; [done|].
  by apply (coherent_delete k (terminate r p)), (coherent_ghost p).
Qed.

Lemma coherent_shutdown_poll e d p : coherent p -> coherent (shutdown_poll e d p).
Proof.
  intros Hp. unfold shutdown_poll. destruct (_ && _); [by apply (coherent_ghost p)|].
  rewrite shutdown_drain_eq. by apply (coherent_ghost p).
Qed.

(** The error listener counts the error on its own worker's record;
    when that key is in the map, [handleWorkerError] deletes its entry,
    and the entries that stay are in order. *)
Lemma coherent_crash_mid r error p wi r' wi' :
  wf p -> coherent p -> heap p !! r = Some wi ->
  coherent
    (with_workers
       (JsMap.delete (w_key wi)
          (workers (terminate r' (rejectCurrent wi' (WorkerFault error)
                                    (modify r incr_errors p)))))
       (terminate r' (rejectCurrent wi' (WorkerFault error) (modify r incr_errors p)))).
Proof.
  intros Hwf Hp Hr.
  destruct (rejectCurrent_frame wi' (WorkerFault error) (modify r incr_errors p))
    as (Hw1 & Hh1 & _).
  split; simpl; rewrite ?Hw1, ?Hh1, ?modify_workers.
  - pose proof (JsMap_delete_other_keys (w_key wi) (workers p)
                  (proj1 (wf_workers p Hwf))) as Hother.
    pose proof (JsMap_delete_sublist (w_key wi) (workers p)) as Hsub.
    pose proof (coh_entries p Hp) as Hall.
    rewrite Forall_forall in Hother, Hall. rewrite Forall_forall.
    intros [k r0] Hkr. specialize (Hother _ Hkr).
    destruct (Hall (k, r0) (elem_of_sublist _ _ _ Hkr Hsub)) as (i & Hi & Hk & He).
    unfold entry_ok. simpl in *. rewrite Hh1. unfold modify. rewrite Hr. simpl.
    destruct (decide (r0 = r)) as [->|Hne'].
    + rewrite Hr in Hi. injection Hi as <-. congruence.
    + exists i. by rewrite list_lookup_insert_ne.
  - unfold modify. rewrite Hr. simpl. apply Forall_insert; [apply Hp|].
    simpl. by apply (Forall_lookup_1 _ _ _ _ (coh_busy p Hp) Hr).
Qed.

Lemma coherent_on_error e r error p : wf p -> coherent p -> coherent (on_error e r error p).
Proof.
  intros Hwf Hp. unfold on_error. destruct (heap p !! r) as [wi|] eqn:Hr; [|done].
  unfold handleWorkerError. rewrite modify_workers.
  destruct (JsMap.get (w_key wi) (workers p)) as [r'|] eqn:Hget.
  - destruct (heap (modify r incr_errors p) !! r') as [wi'|] eqn:Hr'.
    + by apply coherent_processQueue, coherent_respawn, coherent_crash_mid.
    + exfalso. apply JsMap_get_in in Hget.
      pose proof (coh_entries p Hp) as Hall. rewrite Forall_forall in Hall.
      destruct (Hall _ Hget) as (i & Hi & _). simpl in Hi.
      apply lookup_lt_Some in Hi. apply lookup_ge_None in Hr'.
      rewrite modify_heap_length in Hr'. lia.
  - pose proof (JsMap_get_None_keys _ _ Hget) as Hnone.
    pose proof (coh_entries p Hp) as Hall.
    rewrite Forall_forall in Hnone, Hall. split.
    + rewrite modify_workers. rewrite Forall_forall. intros [k r0] Hkr.
      specialize (Hnone _ Hkr). destruct (Hall _ Hkr) as (i & Hi & Hk & He).
      unfold entry_ok, modify. rewrite Hr. simpl in *.
      destruct (decide (r0 = r)) as [->|Hne'].
      * rewrite Hr in Hi. injection Hi as <-. congruence.
      * exists i. by rewrite list_lookup_insert_ne.
    + unfold modify. rewrite Hr. simpl. apply Forall_insert; [apply Hp|].
      simpl. by apply (Forall_lookup_1 _ _ _ _ (coh_busy p Hp) Hr).
Qed.

Lemma step_coherent e ev p : wf p -> coherent p -> coherent (step e ev p).
Proof.
  intros Hwf Hp. destruct ev; simpl.
  - unfold execute. destruct (isShuttingDown p); [done|].
    by apply coherent_processQueue, (coherent_ghost p).
  - unfold on_message, handleWorkerMessage.
    destruct (heap p !! r) as [wi|]; [|done].
    destruct (JsMap.get _ _) as [r'|]; [|done].
    assert (coherent (modify r' (set_completed (now e)) p)) as Hp1.
    { by apply coherent_modify. }
    destruct (list_find _ _) as [[i t]|]; [|done].
    apply coherent_processQueue.
    destruct (r_success result); by eapply coherent_ghost; [..|exact Hp1].
  - by apply coherent_on_error.
  - unfold on_exit. destruct (heap p !! r) as [wi|]; [|done].
    by apply coherent_respawn, coherent_delete.
  - destruct (timers p !! k) as [tm|]; [|done].
    assert (coherent (with_timers (delete k (timers p)) p)) as Hp1
      by by apply (coherent_ghost p).
    revert Hp1. generalize (with_timers (delete k (timers p)) p). intros p1 Hp1.
    unfold on_timeout. destruct (heap p1 !! _) as [wi|]; [|done].
    destruct (bool_decide _); [|done]. apply coherent_modify; [done|done|].
    destruct (list_find _ _) as [[i t]|]; [|done]. by apply (coherent_ghost p1).
  - by apply coherent_cleanup_fold.
  - unfold shutdown. by apply coherent_shutdown_poll, (coherent_ghost p).
  - unfold shutdown_resume. destruct (sleepers p !! k) as [[d|]|]; [| |done].
    + by apply coherent_shutdown_poll, (coherent_ghost p).
    + destruct Hp as [He Hb]. split; simpl; [constructor|done].
Qed.

Lemma constructor_coherent o cpus e : coherent (constructor o cpus e).
Proof.
  unfold constructor.
  match goal with |- coherent (Nat.iter ?n _ ?p) => generalize n; intros k; set (p0 := p) end.
  induction k as [|k IH]; simpl.
  - split; simpl; constructor.
  - by apply coherent_spawnWorker.
Qed.

Lemma run_coherent o cpus e0 evs : coherent (run evs (constructor o cpus e0)).
Proof.
  assert (wf (run evs (constructor o cpus e0))
          /\ coherent (run evs (constructor o cpus e0))) as [_ H]; [|done].
  apply (run_invariant (fun p => wf p /\ coherent p)).
  - intros e ev p [Hwf Hp]. split; [by apply step_wf|by apply step_coherent].
  - split; [apply constructor_wf|apply constructor_coherent].
Qed.

(** X1: in every state the pool reaches, a worker record is busy exactly
    when it names a current task, and the worker [getAvailableWorker]
    returns is an entry of the map whose record is idle and names no
    task: dispatch never overwrites a task a worker holds. *)
Theorem available_worker_holds_no_task (o : Options) (cpus : nat) (e0 : Env)
    (evs : list (Env * Event)) :
  let p := run evs (constructor o cpus e0) in
  (forall r i, heap p !! r = Some i -> (busy i = true <-> currentTask i <> None))
  /\ (forall r, getAvailableWorker p = Some r ->
        exists i, (w_key i, r) ∈ workers p /\ heap p !! r = Some i
                  /\ busy i = false /\ currentTask i = None).
Proof.
  intros p. pose proof (run_coherent o cpus e0 evs) as [He Hb]. fold p in He, Hb.
  clearbody p. split.
  - intros r i Hi. by apply (Forall_lookup_1 _ _ _ _ Hb Hi).
  - intros r Hav. unfold getAvailableWorker in Hav.
    apply find_some in Hav as [Hin Hidle]. unfold is_idle in Hidle.
    destruct (heap p !! r) as [i|] eqn:Hi; [|done]. exists i.
    apply negb_true_iff in Hidle.
    unfold JsMap.values in Hin. apply list_elem_of_In, list_elem_of_fmap in Hin
      as ([k r'] & -> & Hin).
    rewrite Forall_forall in He. destruct (He _ Hin) as (i' & Hi' & Hk & _).
    simpl in *. rewrite Hi in Hi'. injection Hi' as <-. rewrite Hk.
    split; [done|]. split; [done|]. split; [done|].
    pose proof (Forall_lookup_1 _ _ _ _ Hb Hi) as Hiff. simpl in Hiff.
    destruct (currentTask i); [|done].
    assert (busy i = true) by (by apply Hiff). congruence.
Qed.

Lemma sum_errors_zero (l : list WorkerInfo) :
  Forall (fun i => errors i = 0) l -> foldr (fun i acc => errors i + acc) 0 l = 0.
Proof. induction 1 as [|i l Hi Hl IH]; simpl; [done|]. by rewrite Hi, IH. Qed.

(** X2: [getStats().totalErrors] is 0 in every state the pool reaches:
    the error listener counts the error on the record of a worker that
    [handleWorkerError] then takes out of the map, and [getStats] sums
    over the map. *)
Theorem totalErrors_is_always_zero (o : Options) (cpus : nat) (e0 : Env)
    (evs : list (Env * Event)) :
  totalErrors (getStats (run evs (constructor o cpus e0))) = 0.
Proof.
  pose proof (run_coherent o cpus e0 evs) as [He _].
  revert He. generalize (run evs (constructor o cpus e0)). intros p He.
  simpl. apply sum_errors_zero. unfold infos, JsMap.values.
  rewrite Forall_forall in He. rewrite Forall_forall. intros i Hi.
  apply list_elem_of_omap in Hi as (r & Hr & Hi).
  apply list_elem_of_fmap in Hr as ([k r'] & -> & Hin).
  destruct (He _ Hin) as (i' & Hi' & _ & Herr). simpl in *. congruence.
Qed.

(** ** Keeping the minimum *)

Lemma modify_sleepers r f p : sleepers (modify r f p) = sleepers p.
Proof. by destruct (modify_shape r f p) as (h & -> & _). Qed.

Lemma modify_posted r f p : posted (modify r f p) = posted p.
Proof. by destruct (modify_shape r f p) as (h & -> & _). Qed.

Lemma modify_timers r f p : timers (modify r f p) = timers p.
Proof. by destruct (modify_shape r f p) as (h & -> & _). Qed.

Lemma modify_maxWorkers r f p : maxWorkers (modify r f p) = maxWorkers p.
Proof. by destruct (modify_shape r f p) as (h & -> & _). Qed.

#[local] Hint Rewrite modify_sleepers modify_posted modify_timers modify_maxWorkers : frames.

Lemma JsMap_set_new {V} k (v : V) m :
  k ∉ JsMap.keys m -> JsMap.size (JsMap.set k v m) = S (JsMap.size m).
Proof.
  unfold JsMap.keys, JsMap.size. induction m as [|[k' v'] m IH]; simpl; [done|].
  intros [Hne Hk]%not_elem_of_cons. destruct (Z.eqb_spec k k'); [done|].
  simpl. by rewrite IH.
Qed.

(** With a distinct number drawn for every worker, a spawned worker
    gets a new entry. *)
Lemma spawnWorker_new_entry key e p :
  (forall a b, key a = key b -> a = b) -> draws key e ->
  wf p -> coherent p -> keyed_by key p ->
  JsMap.size (workers (spawnWorker e p)) = S (JsMap.size (workers p)).
Proof.
  intros Hinj He Hwf Hc Hk. simpl. apply JsMap_set_new. unfold JsMap.keys.
  intros Hin. apply list_elem_of_fmap in Hin as ([k r] & Heq & Hin). simpl in Heq.
  pose proof (coh_entries p Hc) as Hall. rewrite Forall_forall in Hall.
  destruct (Hall _ Hin) as (i & Hi & Hki & _). simpl in *.
  rewrite (Hk r i Hi), <- Heq, He in Hki. apply Hinj in Hki.
  apply lookup_lt_Some in Hi. lia.
Qed.

Lemma keyed_by_ghost key p p' : heap p' = heap p -> keyed_by key p -> keyed_by key p'.
Proof. unfold keyed_by. by intros ->. Qed.

Lemma keyed_by_modify key r f p :
  (forall i, w_key (f i) = w_key i) -> keyed_by key p -> keyed_by key (modify r f p).
Proof.
  intros Hf Hk r0 i. unfold modify. destruct (heap p !! r) as [j|] eqn:Hj; [|apply Hk].
  simpl. destruct (decide (r0 = r)) as [->|Hne].
  - rewrite list_lookup_insert_eq by (by eapply lookup_lt_Some).
    intros [= <-]. rewrite Hf. by apply Hk.
  - rewrite list_lookup_insert_ne by done. apply Hk.
Qed.

Lemma keyed_by_spawnWorker key e p :
  draws key e -> keyed_by key p -> keyed_by key (spawnWorker e p).
Proof.
  intros He Hk r i. simpl. intros Hi.
  apply lookup_app_Some in Hi as [Hi|[Hlen Hi]]; [by apply Hk|].
  destruct (r - length (heap p)) as [|n] eqn:Hn; [|done].
  injection Hi as <-. simpl. rewrite He. f_equal. lia.
Qed.

Lemma keyed_by_dispatch key e l p :
  draws key e -> keyed_by key p -> keyed_by key (dispatch e l p).
Proof.
  intros He. revert p. induction l as [|t l IH]; intros p Hk; simpl; [done|].
  assert (forall r q, keyed_by key q -> keyed_by key (assign e r t q)) as Hassign.
  { intros r q Hq. unfold assign.
    eapply keyed_by_ghost; [|apply (keyed_by_modify key r (set_assigned (t_id t) (now e)) q);
                             done]. done. }
  destruct (getAvailableWorker p) as [r|]; [by apply IH, Hassign|].
  destruct (_ <? _); [|done].
  destruct (getAvailableWorker (spawnWorker e p)) as [r|].
  - by apply IH, Hassign, keyed_by_spawnWorker.
  - by apply keyed_by_spawnWorker.
Qed.

Lemma keyed_by_processQueue key e p :
  draws key e -> keyed_by key p -> keyed_by key (processQueue e p).
Proof.
  intros He Hk. unfold processQueue. destruct (taskQueue p); [done|].
  destruct (isShuttingDown p); [done|]. by apply keyed_by_dispatch.
Qed.

Lemma keyed_by_respawn key e p :
  draws key e -> keyed_by key p -> keyed_by key (respawn e p).
Proof.
  intros He Hk. unfold respawn. destruct (_ && _); [by apply keyed_by_spawnWorker|done].
Qed.

Lemma step_keyed_by key e ev p :
  draws key e -> keyed_by key p -> keyed_by key (step e ev p).
Proof.
  intros He Hk. destruct ev; simpl.
  - unfold execute. destruct (isShuttingDown p); [done|].
    by apply keyed_by_processQueue, (keyed_by_ghost key p).
  - unfold on_message, handleWorkerMessage.
    destruct (heap p !! r) as [wi|]; [|done].
    destruct (JsMap.get _ _) as [r'|]; [|done].
    assert (keyed_by key (modify r' (set_completed (now e)) p)) as Hp1
      by by apply keyed_by_modify.
    destruct (list_find _ _) as [[i t]|]; [|done].
    apply keyed_by_processQueue; [done|].
    destruct (r_success result); by eapply keyed_by_ghost; [|exact Hp1].
  - unfold on_error, handleWorkerError.
    destruct (heap p !! r) as [wi|]; [|done].
    assert (keyed_by key (modify r incr_errors p)) as Hp1 by by apply keyed_by_modify.
    destruct (JsMap.get _ _) as [r'|]; [|done].
    destruct (heap _ !! r') as [wi'|]; [|done].
    apply keyed_by_processQueue, keyed_by_respawn; try done.
    eapply keyed_by_ghost; [|exact Hp1]. simpl.
    by destruct (rejectCurrent_frame wi' (WorkerFault error) (modify r incr_errors p))
      as (_ & -> & _).
  - unfold on_exit. destruct (heap p !! r) as [wi|]; [|done].
    by apply keyed_by_respawn, (keyed_by_ghost key p).
  - destruct (timers p !! k) as [tm|]; [|done].
    unfold on_timeout. simpl. destruct (heap p !! _) as [wi|]; [|done].
    destruct (bool_decide _); [|done]. apply keyed_by_modify; [done|].
    destruct (list_find _ _) as [[i t]|]; by apply (keyed_by_ghost key p).
  - unfold cleanupIdleWorkers.
    destruct (cleanup_fold_shape e (workers p) p) as (w & tr & ->).
    by apply (keyed_by_ghost key p).
  - unfold shutdown, shutdown_poll. destruct (_ && _); [by apply (keyed_by_ghost key p)|].
    rewrite shutdown_drain_eq. by apply (keyed_by_ghost key p).
  - unfold shutdown_resume, shutdown_poll. destruct (sleepers p !! k) as [[d|]|]; [| |done].
    + destruct (_ && _); [by apply (keyed_by_ghost key p)|].
      rewrite shutdown_drain_eq. by apply (keyed_by_ghost key p).
    + by apply (keyed_by_ghost key p).
Qed.

Lemma dispatch_size_mono e l p :
  JsMap.size (workers p) <= JsMap.size (workers (dispatch e l p)).
Proof.
  revert p. induction l as [|t l IH]; intros p; simpl; [done|].
  destruct (getAvailableWorker p) as [r|].
  - etransitivity; [|apply IH]. by rewrite assign_workers.
  - destruct (_ <? _); [|done]. pose proof (spawnWorker_size e p) as [Hle _].
    destruct (getAvailableWorker (spawnWorker e p)) as [r|]; [|done].
    etransitivity; [|apply IH]. by rewrite assign_workers.
Qed.

Lemma processQueue_size_mono e p :
  JsMap.size (workers p) <= JsMap.size (workers (processQueue e p)).
Proof.
  unfold processQueue. destruct (taskQueue p); [done|].
  destruct (isShuttingDown p); [done|].
  apply (dispatch_size_mono e _ (with_taskQueue _ p)).
Qed.

Lemma processQueue_frame e p :
  isShuttingDown (processQueue e p) = isShuttingDown p
  /\ sleepers (processQueue e p) = sleepers p
  /\ minWorkers (processQueue e p) = minWorkers p.
Proof. by destruct (processQueue_shape e p) as (h & w & q & ps & tms & ->). Qed.

Lemma staffed_processQueue e p : staffed p -> staffed (processQueue e p).
Proof.
  intros Hp. unfold staffed. destruct (processQueue_frame e p) as (-> & -> & ->).
  intros Hs. destruct (Hp Hs) as [? ?]. split; [done|].
  pose proof (processQueue_size_mono e p). lia.
Qed.

(** The exit and error listeners: after one entry at most has left the
    map, the respawn test restores the minimum. *)
Lemma staffed_respawn key e q :
  (forall a b, key a = key b -> a = b) -> draws key e ->
  wf q -> coherent q -> keyed_by key q ->
  (isShuttingDown q = false ->
   sleepers q = [] /\ minWorkers q <= S (JsMap.size (workers q))) ->
  staffed (respawn e q).
Proof.
  intros Hinj He Hwf Hc Hk Hq. unfold staffed, respawn.
  destruct (isShuttingDown q) eqn:Hs; simpl; [by rewrite Hs|].
  destruct (Hq eq_refl) as [Hsl Hmin].
  destruct (JsMap.size (workers q) <? minWorkers q) eqn:Hlt.
  - intros _. split; [done|].
    rewrite (spawnWorker_new_entry key e q) by done. simpl. lia.
  - apply Nat.ltb_ge in Hlt. by intros _.
Qed.

Lemma staffed_ghost p p' :
  isShuttingDown p' = isShuttingDown p -> sleepers p' = sleepers p ->
  minWorkers p' = minWorkers p -> workers p' = workers p ->
  staffed p -> staffed p'.
Proof. unfold staffed. by intros -> -> -> ->. Qed.

Lemma staffed_delete_then_respawn key e k p p1 :
  (forall a b, key a = key b -> a = b) -> draws key e ->
  wf p1 -> coherent (with_workers (JsMap.delete k (workers p1)) p1) ->
  keyed_by key p1 ->
  isShuttingDown p1 = isShuttingDown p -> sleepers p1 = sleepers p ->
  minWorkers p1 = minWorkers p -> workers p1 = workers p ->
  staffed p ->
  staffed (respawn e (with_workers (JsMap.delete k (workers p1)) p1)).
Proof.
  intros Hinj He Hwf Hc Hk Hs Hsl Hm Hw Hp.
  apply (staffed_respawn key); try done.
  - by apply wf_delete_worker.
  - simpl. rewrite Hs, Hsl, Hm, Hw. intros Hns. destruct (Hp Hns) as [? ?].
    split; [done|]. pose proof (JsMap_delete_size k (workers p)). lia.
Qed.

Lemma step_staffed key e ev p :
  (forall a b, key a = key b -> a = b) -> draws key e ->
  wf p -> coherent p -> keyed_by key p -> staffed p -> staffed (step e ev p).
Proof.
  intros Hinj He Hwf Hc Hk Hp. destruct ev; simpl.
  - unfold execute. destruct (isShuttingDown p) eqn:Hs; [done|].
    by apply staffed_processQueue, (staffed_ghost p).
  - unfold on_message, handleWorkerMessage.
    destruct (heap p !! r) as [wi|]; [|done].
    destruct (JsMap.get _ _) as [r'|]; [|done].
    assert (staffed (modify r' (set_completed (now e)) p)) as Hp1.
    { apply (staffed_ghost p); by autorewrite with frames. }
    destruct (list_find _ _) as [[i t]|]; [|done].
    apply staffed_processQueue.
    destruct (r_success result); by eapply staffed_ghost; [..|exact Hp1].
  - unfold on_error, handleWorkerError.
    destruct (heap p !! r) as [wi|] eqn:Hr; [|done].
    assert (staffed (modify r incr_errors p)) as Hp0.
    { apply (staffed_ghost p); by autorewrite with frames. }
    destruct (JsMap.get _ _) as [r'|]; [|done].
    destruct (heap _ !! r') as [wi'|]; [|done].
    apply staffed_processQueue.
    destruct (rejectCurrent_frame wi' (WorkerFault error) (modify r incr_errors p))
      as (Hw1 & Hh1 & Hs1 & Hm1 & _).
    apply (staffed_delete_then_respawn key e (w_key wi) p); try done.
    + by apply wf_terminate, wf_rejectCurrent, wf_modify.
    + by apply coherent_crash_mid.
    + eapply keyed_by_ghost; [exact Hh1|]. by apply keyed_by_modify.
    + simpl. rewrite Hs1. by autorewrite with frames.
    + simpl. unfold rejectCurrent. branches; simpl; by autorewrite with frames.
    + simpl. rewrite Hm1. by autorewrite with frames.
    + simpl. rewrite Hw1. by autorewrite with frames.
  - unfold on_exit. destruct (heap p !! r) as [wi|]; [|done].
    apply (staffed_delete_then_respawn key e (w_key wi) p p); try done.
    by apply coherent_delete.
  - destruct (timers p !! k) as [tm|]; [|done].
    unfold on_timeout. simpl. destruct (heap p !! _) as [wi|]; [|done].
    destruct (bool_decide _); [|done].
    destruct (list_find _ _) as [[i t]|];
      apply (staffed_ghost p); simpl; by autorewrite with frames.
  - unfold cleanupIdleWorkers, staffed.
    pose proof (cleanup_fold_min e (workers p) p) as Hmin.
    destruct (cleanup_fold_shape e (workers p) p) as (w & tr & Heq).
    rewrite Heq in *. simpl in *. intros Hs. destruct (Hp Hs) as [? ?]. auto.
  - unfold staffed. intros Hs.
    assert (isShuttingDown (shutdown e timeout p) = true) as Hflag.
    { unfold shutdown, shutdown_poll. branches; shape; done. }
    congruence.
  - unfold shutdown_resume. destruct (sleepers p !! k) as [c|] eqn:Hk'; [|done].
    destruct (isShuttingDown p) eqn:Hs.
    + unfold staffed. intros Hns.
      pose proof (step_flag e (EvResume k) p Hs) as Hflag. simpl in Hflag.
      unfold shutdown_resume in Hflag. rewrite Hk' in Hflag. congruence.
    + destruct (Hp Hs) as [Hsl _]. by rewrite Hsl in Hk'.
Qed.

Lemma iter_spawn_distinct key e n p :
  (forall a b, key a = key b -> a = b) -> draws key e ->
  wf p -> coherent p -> keyed_by key p ->
  let p' := Nat.iter n (spawnWorker e) p in
  wf p' /\ coherent p' /\ keyed_by key p'
  /\ JsMap.size (workers p') = n + JsMap.size (workers p).
Proof.
  intros Hinj He Hwf Hc Hk. induction n as [|n (IH1 & IH2 & IH3 & IH4)]; simpl; [done|].
  split; [by apply wf_spawnWorker|]. split; [by apply coherent_spawnWorker|].
  split; [by apply keyed_by_spawnWorker|].
  pose proof (spawnWorker_new_entry key e _ Hinj He IH1 IH2 IH3) as Hs.
  simpl in Hs. rewrite Hs. lia.
Qed.

Lemma constructor_distinct key o cpus e :
  (forall a b, key a = key b -> a = b) -> draws key e ->
  wf (constructor o cpus e) /\ coherent (constructor o cpus e)
  /\ keyed_by key (constructor o cpus e)
  /\ JsMap.size (workers (constructor o cpus e)) = minWorkers (constructor o cpus e).
Proof.
  intros Hinj He. unfold constructor.
  match goal with
  | |- context [Nat.iter ?n (spawnWorker e) ?p] =>
      destruct (iter_spawn_distinct key e n p Hinj He) as (H1 & H2 & H3 & H4);
      [split; simpl; [apply wf_map_nil|constructor|constructor]
      |split; simpl; constructor
      |by intros r i Hi
      |destruct (iter_spawn_config e n p) as (_ & Hmin & _)]
  end.
  rewrite Hmin. simpl in *. rewrite H4. unfold JsMap.size. simpl. split_and!; try done; lia.
Qed.

(** X3: when every worker is given a number of its own, the pool is
    built with exactly [minWorkers] workers, and in every state it
    reaches while it is not shutting down the map holds at least
    [minWorkers] workers: a worker that errors or exits is replaced in
    the same turn. *)
Theorem minimum_is_kept (key : nat -> WorkerId) (o : Options) (cpus : nat)
    (e0 : Env) (evs : list (Env * Event)) :
  (forall a b, key a = key b -> a = b) ->
  draws key e0 ->
  Forall (fun turn => draws key (fst turn)) evs ->
  totalWorkers (getStats (constructor o cpus e0)) = minWorkers (constructor o cpus e0)
  /\ (isShuttingDown (run evs (constructor o cpus e0)) = false ->
      minWorkers (constructor o cpus e0)
      <= totalWorkers (getStats (run evs (constructor o cpus e0)))).
Proof.
  intros Hinj He0 Hevs.
  destruct (constructor_distinct key o cpus e0 Hinj He0) as (Hwf & Hc & Hk & Hsize).
  split; [exact Hsize|].
  assert (forall p, wf p /\ coherent p /\ keyed_by key p /\ staffed p ->
                   wf (run evs p) /\ coherent (run evs p) /\ keyed_by key (run evs p)
                   /\ staffed (run evs p)) as Hrun.
  { clear Hwf Hc Hk Hsize. induction Hevs as [|[e ev] evs Hd Hevs IH]; intros p Hp; [done|].
    rewrite run_cons. apply IH. destruct Hp as (Hwf & Hc & Hk & Hs). simpl in Hd.
    split; [by apply step_wf|]. split; [by apply step_coherent|].
    split; [by apply step_keyed_by|]. by apply (step_staffed key). }
  destruct (Hrun (constructor o cpus e0)) as (_ & _ & _ & Hst).
  { split_and!; try done. intros _. split; [|simpl; by rewrite Hsize].
    unfold constructor.
    match goal with
    | |- context [Nat.iter ?n (spawnWorker e0) ?p] =>
        by destruct (iter_spawn_frame e0 n p) as (h & w & ->)
    end. }
  intros Hs. destruct (Hst Hs) as [_ Hmin].
  destruct (run_config evs (constructor o cpus e0)) as (_ & Hm & _).
  simpl. by rewrite <- Hm.
Qed.

(** ** Completion messages *)

Lemma assign_lookup e r t p r0 i :
  heap p !! r0 = Some i ->
  exists i', heap (assign e r t p) !! r0 = Some i'
             /\ tasksCompleted i' = tasksCompleted i /\ w_key i' = w_key i.
Proof.
  intros Hi. unfold assign. simpl. destruct (decide (r0 = r)) as [->|Hne].
  - rewrite (modify_lookup r _ p i Hi). by eexists.
  - unfold modify. destruct (heap p !! r) as [j|] eqn:Hj; [|by exists i]. simpl.
    rewrite list_lookup_insert_ne by done. by exists i.
Qed.

(** A dispatch pass keeps every worker record and its count of
    completed tasks. *)
Lemma dispatch_lookup e l p r0 i :
  heap p !! r0 = Some i ->
  exists i', heap (dispatch e l p) !! r0 = Some i'
             /\ tasksCompleted i' = tasksCompleted i /\ w_key i' = w_key i.
Proof.
  revert p i. induction l as [|t l IH]; intros p i Hi; simpl; [by exists i|].
  destruct (getAvailableWorker p) as [r|].
  - destruct (assign_lookup e r t p r0 i Hi) as (i1 & Hi1 & Hc1 & Hk1).
    destruct (IH _ _ Hi1) as (i2 & Hi2 & Hc2 & Hk2). exists i2. split; [done|]. split; congruence.
  - destruct (_ <? _); [|by exists i].
    assert (heap (spawnWorker e p) !! r0 = Some i) as Hi0.
    { simpl. by apply lookup_app_l_Some. }
    destruct (getAvailableWorker (spawnWorker e p)) as [r|]; [|by exists i].
    destruct (assign_lookup e r t _ r0 i Hi0) as (i1 & Hi1 & Hc1 & Hk1).
    destruct (IH _ _ Hi1) as (i2 & Hi2 & Hc2 & Hk2). exists i2. split; [done|]. split; congruence.
Qed.

Lemma processQueue_lookup e p r0 i :
  heap p !! r0 = Some i ->
  exists i', heap (processQueue e p) !! r0 = Some i'
             /\ tasksCompleted i' = tasksCompleted i /\ w_key i' = w_key i.
Proof.
  intros Hi. unfold processQueue. destruct (taskQueue p); [by exists i|].
  destruct (isShuttingDown p); [by exists i|]. by apply dispatch_lookup.
Qed.

(** X4: a message from a worker whose key is no longer in the map is
    ignored.  Otherwise the worker filed under that key is counted one
    more completed task; if a queued task has the message's id, the
    first such task leaves the queue and its promise is resolved with
    the message's data, or rejected with the message's error text
    ([Task failed] when the text is missing or empty); if none has, the
    worker record is reset to idle and nothing else happens. *)
Theorem message_settles_the_named_task (e : Env) (r : WRef) (result : WorkerResult)
    (p : Pool) (wi : WorkerInfo) :
  heap p !! r = Some wi ->
  let p' := on_message e r result p in
  (JsMap.get (w_key wi) (workers p) = None -> p' = p)
  /\ (forall r' wi',
        JsMap.get (w_key wi) (workers p) = Some r' -> heap p !! r' = Some wi' ->
        match list_find (fun t => t_id t = r_taskId result) (taskQueue p) with
        | Some (i, t) =>
            settled p'
            = settled p
              ++ [(t_fut t,
                   if r_success result then Resolved (r_data result)
                   else Rejected (NewError (or_default_str (r_error result) "Task failed")))]
            /\ taskQueue p' ≡ₚ delete i (taskQueue p)
            /\ exists w, heap p' !! r' = Some w
                         /\ tasksCompleted w = S (tasksCompleted wi')
        | None => p' = modify r' (set_completed (now e)) p
        end).
Proof.
  intros Hr p'. subst p'. unfold on_message, handleWorkerMessage. rewrite Hr. split.
  - by intros ->.
  - intros r' wi' -> Hr'. rewrite modify_taskQueue.
    destruct (list_find _ _) as [[i t]|]; [|done].
    rewrite processQueue_settled, processQueue_taskQueue_perm.
    pose proof (modify_lookup r' (set_completed (now e)) p wi' Hr') as Hl.
    split; [|split].
    + destruct (r_success result); simpl; by autorewrite with frames.
    + destruct (r_success result); simpl; by autorewrite with frames.
    + match goal with
      | |- context [processQueue e ?q] =>
          destruct (processQueue_lookup e q r' (set_completed (now e) wi'))
            as (w & Hw & Hc & _)
      end.
      { destruct (r_success result); simpl; exact Hl. }
      exists w. split; [exact Hw|]. by rewrite Hc.
Qed.

(** ** A saturated pool *)

Lemma dispatch_saturated e l p : saturated p -> dispatch e l p = p.
Proof.
  intros [Hav Hmax]. destruct l as [|t l]; simpl; [done|]. rewrite Hav.
  apply Nat.ltb_ge in Hmax. by rewrite Hmax.
Qed.

(** X5: while no worker is idle and the map is at [maxWorkers], a
    dispatch pass only sorts the queue, and [execute] only creates the
    promise and queues the task: no worker is spawned, no record
    changes, nothing is posted and no timer is armed. *)
Theorem saturated_pool_only_queues (e : Env) (type data : string)
    (timeout priority : option Z) (rnd : string) (p : Pool) :
  saturated p -> isShuttingDown p = false ->
  (taskQueue p <> [] ->
   processQueue e p = with_taskQueue (js_sort by_priority (taskQueue p)) p)
  /\ execute e type data timeout priority rnd p
     = inr (nextFut p,
            with_taskQueue
              (js_sort by_priority
                 (taskQueue p
                  ++ [{| t_id := task_id e rnd; t_type := type; t_data := data;
                         t_fut := nextFut p; t_timeout := timeout;
                         t_priority := priority |}]))
              (with_nextFut (S (nextFut p)) p)).
Proof.
  intros Hsat Hs. split.
  - intros Hq. unfold processQueue. destruct (taskQueue p) as [|t q] eqn:Heq; [done|].
    rewrite Hs. by apply dispatch_saturated.
  - unfold execute. rewrite Hs. f_equal. f_equal. unfold processQueue. simpl.
    destruct (taskQueue p ++ _) as [|t q] eqn:Heq.
    { by destruct (taskQueue p). }
    rewrite Hs. by rewrite dispatch_saturated.
Qed.

(** ** An idle pool *)

Lemma bool_filter_perm {A} (f : A -> bool) (l l' : list A) :
  l ≡ₚ l' -> List.filter f l ≡ₚ List.filter f l'.
Proof.
  induction 1 as [|x l l' H IH|x y l|l l1 l2 H1 IH1 H2 IH2]; simpl.
  - done.
  - destruct (f x); [by constructor|done].
  - destruct (f x), (f y); try done. apply Permutation_swap.
  - by etransitivity.
Qed.

Lemma processQueue_pass e p :
  isShuttingDown p = false -> taskQueue p <> [] ->
  processQueue e p
  = dispatch e (pendingTasks (with_taskQueue (js_sort by_priority (taskQueue p)) p))
      (with_taskQueue (js_sort by_priority (taskQueue p)) p).
Proof.
  intros Hs Hq. unfold processQueue. destruct (taskQueue p); [done|]. by rewrite Hs.
Qed.

(** X6: when the pool is not shutting down, every queued task is with a
    worker, some worker is idle and no worker names the new id,
    [execute] hands the new task to the first idle worker in the same
    turn: that worker is marked busy with the task, one message is
    posted to it, and one timer is armed with the task's timeout, or the
    pool's default when the timeout is missing or 0. *)
Theorem idle_worker_gets_the_task_at_once (e : Env) (type data : string)
    (timeout priority : option Z) (rnd : string) (p : Pool) (r : WRef) :
  let task := {| t_id := task_id e rnd; t_type := type; t_data := data;
                 t_fut := nextFut p; t_timeout := timeout; t_priority := priority |} in
  isShuttingDown p = false ->
  getAvailableWorker p = Some r ->
  pendingTasks p = [] ->
  is_pending p task = true ->
  exists p' i,
    execute e type data timeout priority rnd p = inr (nextFut p, p')
    /\ heap p !! r = Some i
    /\ heap p' = <[r := set_assigned (task_id e rnd) (now e) i]> (heap p)
    /\ workers p' = workers p
    /\ posted p' = posted p ++ [(r, task)]
    /\ timers p'
       = timers p ++ [{| tm_worker := r; tm_task := task;
                         tm_delay := or_default timeout (taskTimeout p) |}]
    /\ taskQueue p' = js_sort by_priority (taskQueue p ++ [task])
    /\ settled p' = settled p.
Proof.
  intros task Hs Hav Hnone Hpend.
  assert (exists i, heap p !! r = Some i) as [i Hi].
  { unfold getAvailableWorker in Hav. apply find_some in Hav as [_ Hidle].
    unfold is_idle in Hidle. destruct (heap p !! r) as [i|]; [by exists i|done]. }
  set (p1 := with_taskQueue (js_sort by_priority (taskQueue p ++ [task]))
               (with_nextFut (S (nextFut p)) p)).
  assert (pendingTasks p1 = [task]) as Hp1.
  { unfold pendingTasks, p1. simpl.
    change (is_pending (with_taskQueue _ _)) with (is_pending p).
    apply Permutation_singleton_r.
    rewrite (bool_filter_perm _ _ _ (js_sort_perm by_priority (taskQueue p ++ [task]))).
    rewrite List.filter_app. unfold pendingTasks in Hnone. rewrite Hnone. simpl.
    by rewrite Hpend. }
  exists (assign e r task p1), i. split.
  - unfold execute. rewrite Hs. f_equal. f_equal.
    rewrite processQueue_pass; [|done|simpl; by destruct (taskQueue p)].
    change (dispatch e (pendingTasks p1) p1 = assign e r task p1).
    rewrite Hp1. simpl.
    change (getAvailableWorker p1) with (getAvailableWorker p). by rewrite Hav.
  - split; [done|]. unfold assign, modify.
    change (heap p1) with (heap p). rewrite Hi. simpl. done.
Qed.

(** ** Turns that free a worker without dispatching *)

Lemma elem_of_delete_other {A} (l : list A) i x y :
  l !! i = Some x -> y ∈ l -> y <> x -> y ∈ delete i l.
Proof.
  intros Hi Hy Hne. rewrite (delete_Permutation l i x Hi) in Hy.
  apply elem_of_cons in Hy as [?|?]; done.
Qed.

Lemma existsb_false {A} (f : A -> bool) (l : list A) :
  existsb f l = false <-> forall x, x ∈ l -> f x = false.
Proof.
  induction l as [|y l IH]; simpl.
  - split; [by intros _ x ?%elem_of_nil|done].
  - rewrite orb_false_iff, IH. split.
    + intros [Hy Hl] x [->|Hx]%elem_of_cons; auto.
    + intros H. split; [apply H; by left|]. intros x Hx. apply H. by right.
Qed.

(** X7: a timer that fires while its worker, still in the map, names
    its task frees that worker but does not dispatch: nothing is posted
    in that turn, every task that was waiting is still waiting, and a
    worker is available. *)
Theorem timeout_frees_without_dispatch (e : Env) (k : nat) (tm : Timer)
    (w : WorkerInfo) (kw : WorkerId) (p : Pool) :
  timers p !! k = Some tm ->
  heap p !! tm_worker tm = Some w ->
  currentTask w = Some (t_id (tm_task tm)) ->
  (kw, tm_worker tm) ∈ workers p ->
  let p' := step e (EvTimeout k) p in
  posted p' = posted p
  /\ getAvailableWorker p' <> None
  /\ (forall t, t ∈ pendingTasks p -> t ∈ pendingTasks p').
Proof.
  intros Hk Hw Hcur Hlive p'. subst p'. simpl. rewrite Hk. unfold on_timeout. simpl.
  rewrite Hw, bool_decide_eq_true_2 by done.
  set (q := match list_find _ _ with Some _ => _ | None => _ end).
  assert (heap q = heap p /\ workers q = workers p /\ posted q = posted p) as (Hh & Hwk & Hpo).
  { unfold q. by destruct (list_find _ _) as [[i t]|]. }
  assert (heap (modify (tm_worker tm) set_idle q) !! tm_worker tm = Some (set_idle w)) as Hnew.
  { apply modify_lookup. by rewrite Hh. }
  split; [by rewrite modify_posted|]. split.
  - unfold getAvailableWorker. intros Hnone.
    assert (is_idle (modify (tm_worker tm) set_idle q) (tm_worker tm) = false) as Hidle.
    { apply (find_none _ _ Hnone). rewrite modify_workers, Hwk.
      apply list_elem_of_In. unfold JsMap.values.
      by apply (list_elem_of_fmap_2 snd _ (kw, tm_worker tm)). }
    unfold is_idle in Hidle. by rewrite Hnew in Hidle.
  - intros t Ht. unfold pendingTasks in *.
    apply list_elem_of_In, filter_In in Ht as [Ht Hpen]. apply list_elem_of_In in Ht.
    apply list_elem_of_In, filter_In. split.
    + apply list_elem_of_In. rewrite modify_taskQueue. unfold q.
      destruct (list_find _ _) as [[i x]|] eqn:Hf; [|done]. simpl.
      apply list_find_Some in Hf as (Hi & Hid & _).
      apply (elem_of_delete_other _ i x); [done|done|]. intros ->.
      unfold is_pending in Hpen. apply negb_true_iff in Hpen.
      assert (names p (t_id x) (tm_worker tm) = false) as Hn.
      { apply (proj1 (existsb_false _ _) Hpen). unfold JsMap.values.
        by apply (list_elem_of_fmap_2 snd _ (kw, tm_worker tm)). }
      unfold names in Hn. rewrite Hw in Hn. apply bool_decide_eq_false in Hn.
      by rewrite Hid in Hn.
    + unfold is_pending in *. apply negb_true_iff in Hpen. apply negb_true_iff.
      rewrite modify_workers, Hwk.
      apply existsb_false. intros r0 Hr0.
      pose proof (proj1 (existsb_false _ _) Hpen r0 Hr0) as Hn.
      unfold names in *. destruct (decide (r0 = tm_worker tm)) as [->|Hne].
      * by rewrite Hnew.
      * unfold modify. rewrite Hh, Hw. simpl.
        by rewrite list_lookup_insert_ne.
Qed.

Lemma dispatch_posted_app e l p :
  exists more, posted (dispatch e l p) = posted p ++ more.
Proof.
  revert p. induction l as [|t l IH]; intros p; simpl.
  - exists []. by rewrite app_nil_r.
  - destruct (getAvailableWorker p) as [w|].
    + destruct (IH (assign e w t p)) as [more ->]. rewrite assign_posted, <- app_assoc.
      by eexists.
    + destruct (_ <? _); [|exists []; by rewrite app_nil_r].
      destruct (getAvailableWorker (spawnWorker e p)) as [w|];
        [|exists []; by rewrite app_nil_r].
      destruct (IH (assign e w t (spawnWorker e p))) as [more ->].
      rewrite assign_posted, <- app_assoc. by eexists.
Qed.

Lemma dispatch_posted_head e t l w p :
  getAvailableWorker p = Some w ->
  exists more, posted (dispatch e (t :: l) p) = posted p ++ (w, t) :: more.
Proof.
  intros Hw. simpl. rewrite Hw.
  destruct (dispatch_posted_app e l (assign e w t p)) as [more ->].
  rewrite assign_posted, <- app_assoc. by exists more.
Qed.

(** X8: a completion message whose id matches no queued task (a late
    answer to a task that timed out) still resets the worker filed under
    the sender's key.  If that worker was holding a queued task that no
    other worker names, the task is now pending again although nothing
    was settled or posted, and a worker is idle: unless the pool is
    shutting down, the next dispatch pass posts the first pending task
    of the sorted queue (the freed task itself when it comes first,
    another task otherwise) to the first idle worker. *)
Theorem late_message_unassigns_the_current_task (e : Env) (r : WRef)
    (result : WorkerResult) (p : Pool) (wi : WorkerInfo) (r' : WRef)
    (wi' : WorkerInfo) (y : WorkerTask) :
  heap p !! r = Some wi ->
  JsMap.get (w_key wi) (workers p) = Some r' ->
  heap p !! r' = Some wi' ->
  currentTask wi' = Some (t_id y) ->
  y ∈ taskQueue p ->
  no_task_named (r_taskId result) p ->
  (forall r0, r0 ∈ JsMap.values (workers p) -> r0 <> r' -> names p (t_id y) r0 = false) ->
  let p' := on_message e r result p in
  is_pending p y = false
  /\ y ∈ pendingTasks p'
  /\ settled p' = settled p
  /\ posted p' = posted p
  /\ (isShuttingDown p = false ->
      forall e', exists first rest w more,
        pendingTasks (with_taskQueue (js_sort by_priority (taskQueue p')) p')
        = first :: rest
        /\ getAvailableWorker p' = Some w
        /\ posted (processQueue e' p') = posted p ++ (w, first) :: more).
Proof.
  intros Hr Hget Hr' Hcur Hy Hnone Hothers p'.
  assert (p' = modify r' (set_completed (now e)) p) as ->.
  { subst p'. unfold on_message, handleWorkerMessage. rewrite Hr, Hget, modify_taskQueue.
    destruct (list_find _ _) as [[i t]|] eqn:Hf; [|done].
    apply list_find_Some in Hf as (Hi & Hid & _). apply list_elem_of_lookup_2 in Hi.
    unfold no_task_named in Hnone. rewrite Forall_forall in Hnone. by destruct (Hnone t Hi). }
  assert (r' ∈ JsMap.values (workers p)) as Hlive.
  { apply JsMap_get_in in Hget. unfold JsMap.values.
    by apply (list_elem_of_fmap_2 snd _ (w_key wi, r')). }
  assert (y ∈ pendingTasks (modify r' (set_completed (now e)) p)) as Hpend.
  { unfold pendingTasks. apply list_elem_of_In, filter_In.
    rewrite modify_taskQueue. split; [by apply list_elem_of_In|].
    unfold is_pending. apply negb_true_iff, existsb_false. rewrite modify_workers.
    intros r0 Hr0. unfold names. destruct (decide (r0 = r')) as [->|Hne].
    + by rewrite (modify_lookup r' _ p wi' Hr').
    + specialize (Hothers r0 Hr0 Hne). unfold names in Hothers.
      unfold modify. rewrite Hr'. simpl. by rewrite list_lookup_insert_ne. }
  split; [|split; [done|split; [|split]]]; [|by autorewrite with frames..|].
  - unfold is_pending. apply negb_false_iff, existsb_exists. exists r'.
    split; [by apply list_elem_of_In|]. unfold names. rewrite Hr'.
    by apply bool_decide_eq_true_2.
  - intros Hs e'. set (p1 := modify r' (set_completed (now e)) p) in *.
    set (q := with_taskQueue (js_sort by_priority (taskQueue p1)) p1).
    assert (y ∈ pendingTasks q) as Hq.
    { unfold pendingTasks in *. cbn [taskQueue q with_taskQueue].
      change (is_pending q) with (is_pending p1).
      by rewrite (bool_filter_perm _ _ _ (js_sort_perm by_priority (taskQueue p1))). }
    destruct (pendingTasks q) as [|first rest] eqn:Hpq; [by apply elem_of_nil in Hq|].
    assert (exists w, getAvailableWorker p1 = Some w) as [w Hw].
    { unfold getAvailableWorker. destruct (List.find _ _) as [w|] eqn:Hf; [by eexists|].
      pose proof (find_none _ _ Hf r') as Hn. rewrite <- list_elem_of_In in Hn.
      unfold p1 in Hn. rewrite modify_workers in Hn. specialize (Hn Hlive).
      unfold is_idle in Hn. by rewrite (modify_lookup r' _ p wi' Hr') in Hn. }
    exists first, rest, w.
    assert (taskQueue p1 <> []) as Hne.
    { unfold p1. rewrite modify_taskQueue. intros Hnil. rewrite Hnil in Hy.
      by apply elem_of_nil in Hy. }
    assert (isShuttingDown p1 = false) as Hs1 by (unfold p1; by autorewrite with frames).
    rewrite (processQueue_pass e' p1 Hs1 Hne). fold q. rewrite Hpq.
    destruct (dispatch_posted_head e' first rest w q Hw) as [more ->].
    exists more. split; [done|]. split; [done|].
    unfold q, p1. simpl. by autorewrite with frames.
Qed.

(** ** After shutdown *)

Lemma step_shut_and_empty e ev p :
  isShuttingDown p = true -> workers p = [] ->
  workers (step e ev p) = [] /\ posted (step e ev p) = posted p.
Proof.
  intros Hs Hw. destruct ev; simpl.
  - unfold execute. by rewrite Hs.
  - unfold on_message, handleWorkerMessage. destruct (heap p !! r); [|done].
    by rewrite Hw.
  - unfold on_error, handleWorkerError. destruct (heap p !! r); [|done].
    rewrite modify_workers, Hw. simpl. by autorewrite with frames.
  - unfold on_exit. destruct (heap p !! r); [|done].
    rewrite respawn_shutting by done. simpl. by rewrite Hw.
  - destruct (timers p !! k) as [tm|]; [|done]. unfold on_timeout. simpl.
    destruct (heap p !! _); [|done]. destruct (bool_decide _); [|done].
    autorewrite with frames. by destruct (list_find _ _) as [[i t]|].
  - unfold cleanupIdleWorkers. by rewrite Hw.
  - unfold shutdown, shutdown_poll. destruct (_ && _); [done|].
    by rewrite shutdown_drain_eq.
  - unfold shutdown_resume, shutdown_poll. destruct (sleepers p !! k) as [[d|]|]; [|done|done].
    destruct (_ && _); [done|]. by rewrite shutdown_drain_eq.
Qed.

Lemma run_shut_and_empty evs p :
  isShuttingDown p = true -> workers p = [] ->
  isShuttingDown (run evs p) = true /\ workers (run evs p) = []
  /\ posted (run evs p) = posted p.
Proof.
  revert p. induction evs as [|[e ev] evs IH]; intros p Hs Hw; [done|].
  rewrite run_cons. destruct (step_shut_and_empty e ev p Hs Hw) as [Hw' Hp'].
  destruct (IH (step e ev p) (step_flag e ev p Hs) Hw') as (? & ? & ?).
  split; [done|]. split; [done|congruence].
Qed.

(** X9: once [shutdown] has cleared the map, the pool stays empty: in
    every later state the map has no worker, [getStats] reports no
    worker, busy or idle, and nothing is ever posted again. *)
Theorem shut_down_pool_stays_empty (e : Env) (k : nat) (p : Pool)
    (evs : list (Env * Event)) :
  isShuttingDown p = true ->
  sleepers p !! k = Some Terminating ->
  let q := run evs (step e (EvResume k) p) in
  totalWorkers (getStats q) = 0
  /\ busyWorkers (getStats q) = 0
  /\ idleWorkers (getStats q) = 0
  /\ isShuttingDown q = true
  /\ posted q = posted p.
Proof.
  intros Hs Hk q.
  assert (isShuttingDown q = true /\ workers q = [] /\ posted q = posted p) as (Hq1 & Hq2 & Hq3).
  { subst q. simpl. unfold shutdown_resume. rewrite Hk.
    by apply (run_shut_and_empty evs (with_workers [] (with_sleepers (delete k (sleepers p)) p))). }
  simpl. unfold infos. rewrite Hq2. simpl. done.
Qed.

(** ** The pools of the process *)

Lemma constructor_config o cpus e :
  maxWorkers (constructor o cpus e) = or_default_nat (o_maxWorkers o) cpus
  /\ minWorkers (constructor o cpus e)
     = or_default_nat (o_minWorkers o) (Nat.max 1 (cpus / 2))
  /\ idleTimeout (constructor o cpus e) = or_default (o_idleTimeout o) 30000
  /\ taskTimeout (constructor o cpus e) = or_default (o_taskTimeout o) 60000
  /\ isShuttingDown (constructor o cpus e) = false.
Proof.
  unfold constructor.
  match goal with
  | |- context [Nat.iter ?n (spawnWorker e) ?p] =>
      destruct (iter_spawn_frame e n p) as (h & w & ->)
  end. done.
Qed.

Lemma or_default_nat_pos n d : 0 < n -> or_default_nat (Some n) d = n.
Proof. by destruct n; [lia|]. Qed.

Lemma run_bounds evs p :
  minWorkers p <= maxWorkers p ->
  JsMap.size (workers p) <= maxWorkers p ->
  busyWorkers (getStats (run evs p)) <= totalWorkers (getStats (run evs p))
  /\ totalWorkers (getStats (run evs p)) <= maxWorkers p.
Proof.
  intros Hc Hp. split; [apply busy_le_total|].
  pose proof (run_within_max evs p Hc Hp) as H. unfold within_max in H.
  destruct (run_config evs p) as (Hmx & _). simpl. by rewrite <- Hmx.
Qed.

(** X10: the image, pdf, qrcode and video pools are built with
    [minWorkers = 1] and [maxWorkers] at least 2 (half the processor
    count, a quarter for video), so whatever the processor count they
    satisfy [busyWorkers <= totalWorkers <= maxWorkers] in every state
    they reach; only the video pool changes the task timeout, to five
    minutes. *)
Theorem small_pools_stay_within_bounds (d : Domain) (cpus : nat) (e : Env)
    (evs : list (Env * Event)) :
  d <> General ->
  let p := run evs (fst (getPool d cpus e no_pools)) in
  minWorkers p = 1
  /\ maxWorkers p = Nat.max 2 (cpus / match d with Video => 4 | _ => 2 end)
  /\ taskTimeout p = match d with Video => 300000%Z | _ => 60000%Z end
  /\ busyWorkers (getStats p) <= totalWorkers (getStats p)
  /\ totalWorkers (getStats p) <= maxWorkers p.
Proof.
  intros Hd p. subst p. unfold getPool, no_pools. simpl.
  set (o := poolOptions d cpus).
  destruct (constructor_config o cpus e) as (Hmx & Hmn & _ & Htt & _).
  destruct (run_config evs (constructor o cpus e)) as (Hmx' & Hmn' & _ & Htt').
  assert (minWorkers (constructor o cpus e) = 1) as Hmin1.
  { rewrite Hmn. unfold o. by destruct d. }
  assert (maxWorkers (constructor o cpus e)
          = Nat.max 2 (cpus / match d with Video => 4 | _ => 2 end)) as Hmax.
  { rewrite Hmx. unfold o. destruct d; try done; simpl; apply or_default_nat_pos; lia. }
  rewrite Hmn', Hmx', Htt', Hmin1, Hmax, Htt.
  split; [done|]. split; [done|]. split; [unfold o; by destruct d|].
  rewrite <- Hmax. apply run_bounds.
  - rewrite Hmin1, Hmax. lia.
  - etransitivity; [apply constructor_size|]. rewrite Hmin1, Hmax. lia.
Qed.

(** X11: the general pool is built with [minWorkers = 2] and
    [maxWorkers] the processor count.  With two processors or more it
    stays within [maxWorkers] in every state it reaches; with fewer, and
    a number of its own for each worker, it starts with two workers,
    more than its [maxWorkers]. *)
Theorem general_pool_needs_two_processors (cpus : nat) (e : Env) :
  let p0 := fst (getGeneralPool cpus e no_pools) in
  minWorkers p0 = 2
  /\ maxWorkers p0 = cpus
  /\ (2 <= cpus ->
      forall evs, totalWorkers (getStats (run evs p0)) <= maxWorkers p0)
  /\ (cpus < 2 ->
      forall key, (forall a b, key a = key b -> a = b) -> draws key e ->
                  totalWorkers (getStats p0) = 2
                  /\ maxWorkers p0 < totalWorkers (getStats p0)).
Proof.
  intros p0. subst p0.
  change (fst (getGeneralPool cpus e no_pools))
    with (constructor (poolOptions General cpus) cpus e).
  set (o := poolOptions General cpus).
  destruct (constructor_config o cpus e) as (Hmx & Hmn & _).
  assert (minWorkers (constructor o cpus e) = 2) as Hmin by by rewrite Hmn.
  assert (maxWorkers (constructor o cpus e) = cpus) as Hmax.
  { rewrite Hmx. simpl. by destruct cpus. }
  split; [done|]. split; [done|]. split.
  - intros Hc evs.
    destruct (run_bounds evs (constructor o cpus e)) as [_ H]; [lia| |exact H].
    etransitivity; [apply constructor_size|]. lia.
  - intros Hc key Hinj Hd.
    destruct (constructor_distinct key o cpus e Hinj Hd) as (_ & _ & _ & Hsz).
    change (totalWorkers (getStats (constructor o cpus e)))
      with (JsMap.size (workers (constructor o cpus e))).
    rewrite Hsz, Hmin, Hmax. lia.
Qed.

(** ** The routes *)

(** A getter returns the pool of its slot, building it only when the
    slot is empty, and leaves the other slots alone. *)
Lemma getPool_spec d cpus e g :
  exists p,
    fst (getPool d cpus e g) = p
    /\ (forall d', snd (getPool d cpus e g) d' = if domain_eqb d d' then Some p else g d')
    /\ (g d = Some p \/ (g d = None /\ p = constructor (poolOptions d cpus) cpus e)).
Proof.
  unfold getPool. destruct (g d) as [p|] eqn:Hd.
  - exists p. split; [done|]. split; [|by left].
    intros d'. simpl. destruct d, d'; simpl; congruence.
  - eexists. split; [done|]. split; [done|]. by right.
Qed.

Lemma getPool_fst_ext d cpus e g g' :
  g d = g' d -> fst (getPool d cpus e g) = fst (getPool d cpus e g').
Proof. unfold getPool. intros <-. by destruct (g d). Qed.

Lemma JsMap_set_nonempty {V} k (v : V) m : 0 < JsMap.size (JsMap.set k v m).
Proof.
  unfold JsMap.size. destruct m as [|[k' v'] m]; simpl; [lia|].
  destruct (k =? k')%Z; simpl; lia.
Qed.

(** A pool built with [minWorkers >= 1] has a worker, whatever numbers
    its workers are given. *)
Lemma constructor_has_a_worker o cpus e :
  0 < minWorkers (constructor o cpus e) ->
  0 < totalWorkers (getStats (constructor o cpus e)).
Proof.
  unfold constructor.
  match goal with
  | |- context [Nat.iter ?n (spawnWorker e) ?p] =>
      destruct (iter_spawn_config e n p) as (_ & -> & _); generalize n; generalize p
  end.
  intros p [|n] Hn; [lia|].
  change (0 < JsMap.size (workers (spawnWorker e (Nat.iter n (spawnWorker e) p)))).
  apply JsMap_set_nonempty.
Qed.

Lemma poolOptions_min d cpus e :
  0 < minWorkers (constructor (poolOptions d cpus) cpus e).
Proof.
  destruct (constructor_config (poolOptions d cpus) cpus e) as (_ & -> & _).
  destruct d; simpl; lia.
Qed.

(** The five getters called one after the other: each returns the pool
    its own slot had at the start, or a new one, and every slot is
    filled at the end with the pool returned for it. *)
Lemma getters_in_turn cpus e g :
  let p d := fst (getPool d cpus e g) in
  let g1 := snd (getImagePool cpus e g) in
  let g2 := snd (getPdfPool cpus e g1) in
  let g3 := snd (getGeneralPool cpus e g2) in
  let g4 := snd (getQRCodePool cpus e g3) in
  let g5 := snd (getVideoPool cpus e g4) in
  fst (getPdfPool cpus e g1) = p Pdf
  /\ fst (getGeneralPool cpus e g2) = p General
  /\ fst (getQRCodePool cpus e g3) = p QRCode
  /\ fst (getVideoPool cpus e g4) = p Video
  /\ forall d, g5 d = Some (p d).
Proof.
  intros p g1 g2 g3 g4 g5.
  destruct (getPool_spec Image cpus e g) as (p1 & H1 & E1 & _).
  destruct (getPool_spec Pdf cpus e g1) as (p2 & H2 & E2 & _).
  destruct (getPool_spec General cpus e g2) as (p3 & H3 & E3 & _).
  destruct (getPool_spec QRCode cpus e g3) as (p4 & H4 & E4 & _).
  destruct (getPool_spec Video cpus e g4) as (p5 & H5 & E5 & _).
  fold g1 in E1. fold g2 in E2. fold g3 in E3. fold g4 in E4. fold g5 in E5.
  assert (fst (getPdfPool cpus e g1) = p Pdf) as F2.
  { apply getPool_fst_ext. by rewrite E1. }
  assert (fst (getGeneralPool cpus e g2) = p General) as F3.
  { apply getPool_fst_ext. by rewrite E2, E1. }
  assert (fst (getQRCodePool cpus e g3) = p QRCode) as F4.
  { apply getPool_fst_ext. by rewrite E3, E2, E1. }
  assert (fst (getVideoPool cpus e g4) = p Video) as F5.
  { apply getPool_fst_ext. by rewrite E4, E3, E2, E1. }
  split; [done|]. split; [done|]. split; [done|]. split; [done|].
  intros d. rewrite E5, E4, E3, E2, E1.
  unfold getPdfPool, getGeneralPool, getQRCodePool, getVideoPool, getImagePool in *.
  unfold p in *. destruct d; simpl; congruence.
Qed.

Lemma healthRoute_eq cpus e g :
  let p d := fst (getPool d cpus e g) in
  hb_healthy (fst (healthRoute cpus e g))
  = forallb (fun d => 0 <? totalWorkers (getStats (p d))) all_domains
  /\ hb_status (fst (healthRoute cpus e g))
     = (if hb_healthy (fst (healthRoute cpus e g)) then 200 else 503)
  /\ hb_pools (fst (healthRoute cpus e g))
     = map (fun '(name, d) =>
              (name, if 0 <? totalWorkers (getStats (p d)) then "healthy" else "unhealthy"))
         [("image", Image); ("pdf", Pdf); ("general", General);
          ("qrcode", QRCode); ("video", Video)]
  /\ forall d, snd (healthRoute cpus e g) d = Some (p d).
Proof.
  intros p. destruct (getters_in_turn cpus e g) as (F2 & F3 & F4 & F5 & Hall).
  fold p in F2, F3, F4, F5, Hall. revert F2 F3 F4 F5 Hall.
  unfold healthRoute.
  destruct (getImagePool cpus e g) as [ip g1] eqn:E1.
  assert (ip = p Image) as -> by (unfold p; fold (getImagePool cpus e g); by rewrite E1).
  simpl. destruct (getPdfPool cpus e g1) as [pp g2].
  simpl. destruct (getGeneralPool cpus e g2) as [gp g3].
  simpl. destruct (getQRCodePool cpus e g3) as [qp g4].
  simpl. destruct (getVideoPool cpus e g4) as [vp g5].
  simpl. intros -> -> -> -> Hall. done.
Qed.

Lemma getPool_fst d cpus e g :
  fst (getPool d cpus e g)
  = match g d with
    | Some p => p
    | None => constructor (poolOptions d cpus) cpus e
    end.
Proof. unfold getPool. by destruct (g d). Qed.

(** X12: [GET /health] answers [healthy] with status 200 exactly when
    every pool already built has at least one worker, and status 503
    otherwise; a pool the request itself builds always has a worker.
    The request leaves the pools already built as they are and builds
    the missing ones. *)
Theorem health_reflects_worker_presence (cpus : nat) (e : Env) (g : Registry) :
  let h := fst (healthRoute cpus e g) in
  (hb_healthy h = true <-> forall d p, g d = Some p -> 0 < totalWorkers (getStats p))
  /\ hb_status h = (if hb_healthy h then 200 else 503)
  /\ (forall d p, g d = Some p -> snd (healthRoute cpus e g) d = Some p)
  /\ (forall d, g d = None ->
        snd (healthRoute cpus e g) d = Some (constructor (poolOptions d cpus) cpus e)).
Proof.
  intros h. subst h. destruct (healthRoute_eq cpus e g) as (Hh & Hst & _ & Hg).
  split; [|split; [done|split]].
  - rewrite Hh, forallb_forall. split.
    + intros H d p Hd. specialize (H d). rewrite getPool_fst, Hd in H.
      apply Nat.ltb_lt, H. destruct d; simpl; auto 10.
    + intros H d _. apply Nat.ltb_lt. rewrite getPool_fst.
      destruct (g d) as [p|] eqn:Hd; [by apply (H d)|].
      apply constructor_has_a_worker, poolOptions_min.
  - intros d p Hd. by rewrite Hg, getPool_fst, Hd.
  - intros d Hd. by rewrite Hg, getPool_fst, Hd.
Qed.

(** X13: a pool whose [shutdown] has run to its end is never replaced by
    its getter, so from then on, whatever happens to it and whatever the
    other pools do, [GET /health] answers 503 and calls that pool
    unhealthy. *)
Theorem health_fails_after_shutdown (cpus : nat) (e e' : Env) (g : Registry)
    (d : Domain) (p : Pool) (k : nat) (evs : list (Env * Event)) :
  isShuttingDown p = true ->
  sleepers p !! k = Some Terminating ->
  g d = Some (run evs (step e' (EvResume k) p)) ->
  let h := fst (healthRoute cpus e g) in
  hb_healthy h = false
  /\ hb_status h = 503
  /\ fst (getPool d cpus e (snd (healthRoute cpus e g))) = run evs (step e' (EvResume k) p).
Proof.
  intros Hs Hk Hd h. subst h. destruct (healthRoute_eq cpus e g) as (Hh & Hst & _ & Hg).
  assert (workers (run evs (step e' (EvResume k) p)) = []) as Hw.
  { simpl. unfold shutdown_resume. rewrite Hk.
    by apply (run_shut_and_empty evs (with_workers [] (with_sleepers (delete k (sleepers p)) p))). }
  assert (hb_healthy (fst (healthRoute cpus e g)) = false) as Hf.
  { rewrite Hh. apply not_true_is_false. rewrite forallb_forall. intros H.
    assert (In d all_domains) as Hin by (destruct d; simpl; auto 10).
    specialize (H d Hin). rewrite getPool_fst, Hd in H. apply Nat.ltb_lt in H.
    change (0 < JsMap.size (workers (run evs (step e' (EvResume k) p)))) in H.
    rewrite Hw in H. unfold JsMap.size in H. simpl in H. lia. }
  split; [done|]. split; [by rewrite Hst, Hf|].
  by rewrite getPool_fst, Hg, getPool_fst, Hd.
Qed.

Lemma statsRoute_eq cpus e g :
  let p d := fst (getPool d cpus e g) in
  let allStats := map (fun d => getStats (p d)) all_domains in
  sb_total (fst (statsRoute cpus e g))
  = {| totalWorkers := sum_of totalWorkers allStats;
       busyWorkers := sum_of busyWorkers allStats;
       idleWorkers := sum_of idleWorkers allStats;
       queuedTasks := sum_of queuedTasks allStats;
       totalTasksCompleted := sum_of totalTasksCompleted allStats;
       totalErrors := sum_of totalErrors allStats |}.
Proof.
  intros p. destruct (getters_in_turn cpus e g) as (F2 & F3 & F4 & F5 & _).
  fold p in F2, F3, F4, F5. revert F2 F3 F4 F5.
  unfold statsRoute.
  destruct (getImagePool cpus e g) as [ip g1] eqn:E1.
  assert (ip = p Image) as -> by (unfold p; fold (getImagePool cpus e g); by rewrite E1).
  simpl. destruct (getPdfPool cpus e g1) as [pp g2].
  simpl. destruct (getGeneralPool cpus e g2) as [gp g3].
  simpl. destruct (getQRCodePool cpus e g3) as [qp g4].
  simpl. destruct (getVideoPool cpus e g4) as [vp g5].
  simpl. intros -> -> -> ->. done.
Qed.

Lemma idle_plus_busy p :
  idleWorkers (getStats p) + busyWorkers (getStats p) = totalWorkers (getStats p).
Proof.
  pose proof (busy_le_total p) as H.
  change (idleWorkers (getStats p))
    with (totalWorkers (getStats p) - busyWorkers (getStats p)). lia.
Qed.

(** X14: in the body of [GET /stats], for any state of the five pools,
    the totals are consistent: the idle and busy totals add up to the
    total number of workers. *)
Theorem stats_totals_add_up (cpus : nat) (e : Env) (g : Registry) :
  let total := sb_total (fst (statsRoute cpus e g)) in
  idleWorkers total + busyWorkers total = totalWorkers total
  /\ busyWorkers total <= totalWorkers total.
Proof.
  intros total. subst total. rewrite statsRoute_eq.
  unfold sum_of. cbn [map all_domains foldl].
  cbn [totalWorkers busyWorkers idleWorkers].
  pose proof (idle_plus_busy (fst (getPool Image cpus e g))).
  pose proof (idle_plus_busy (fst (getPool Pdf cpus e g))).
  pose proof (idle_plus_busy (fst (getPool General cpus e g))).
  pose proof (idle_plus_busy (fst (getPool QRCode cpus e g))).
  pose proof (idle_plus_busy (fst (getPool Video cpus e g))). lia.
Qed.

(** X15: the signal handlers call [shutdown] on the pools that exist:
    each of them throws the shutting-down error on every later
    [execute] and never allocates a worker again.  A pool that did not
    exist yet is left out, and its getter later builds it as usual, not
    shutting down. *)
Theorem signal_shuts_down_the_pools_that_exist (e : Env) (g : Registry) (d : Domain) :
  match g d with
  | Some p =>
      onSignal e g d = Some (shutdown e None p)
      /\ forall evs e' type data timeout priority rnd,
           (exists err,
              execute e' type data timeout priority rnd (run evs (shutdown e None p))
              = inl err /\ PoolShuttingDown err)
           /\ length (heap (run evs (shutdown e None p))) = length (heap p)
  | None =>
      onSignal e g d = None
      /\ forall cpus e',
           isShuttingDown (fst (getPool d cpus e' (onSignal e g))) = false
  end.
Proof.
  unfold onSignal. destruct (g d) as [p|] eqn:Hd.
  - split; [done|]. intros evs e' type data timeout priority rnd.
    assert (isShuttingDown (shutdown e None p) = true) as Hs.
    { unfold shutdown, shutdown_poll. branches; shape; done. }
    split.
    + unfold execute. rewrite (run_flag evs _ Hs). eexists. split; [done|]. by left.
    + rewrite run_no_spawn by done. unfold shutdown, shutdown_poll. branches; shape; done.
  - split; [done|]. intros cpus e'. rewrite getPool_fst, Hd.
    by destruct (constructor_config (poolOptions d cpus) cpus e') as (_ & _ & _ & _ & ->).
Qed.

(** ** CSV rows *)

Lemma includes_char s c : includes s (String c EmptyString) = has_char c s.
Proof.
  unfold includes. induction s as [|b s IH]; [done|].
  cbn [String.index has_char]. cbn [String.prefix].
  destruct (Ascii.ascii_dec c b) as [->|Hcb].
  - rewrite Ascii.eqb_refl. by destruct s.
  - apply Ascii.eqb_neq in Hcb. rewrite Hcb. simpl.
    by destruct (String.index 0 (String c EmptyString) s).
Qed.

Lemma append_nil_l s : EmptyString +:+ s = s.
Proof. done. Qed.

Lemma append_cons c s t : String c s +:+ t = String c (s +:+ t).
Proof. done. Qed.

Lemma append_nil_r s : s +:+ EmptyString = s.
Proof. induction s; rewrite ?append_cons, ?append_nil_l; congruence. Qed.

Lemma append_snoc cur c s : (cur +:+ String c EmptyString) +:+ s = cur +:+ String c s.
Proof.
  induction cur; repeat (rewrite append_cons || rewrite append_nil_l); congruence.
Qed.

Lemma parse_plain d s rest result cur :
  has_char dquote s = false -> has_char d s = false ->
  parseCSVLine_from (s +:+ rest) (String d EmptyString) result cur false
  = parseCSVLine_from rest (String d EmptyString) result (cur +:+ s) false.
Proof.
  revert cur. induction s as [|c s IH]; intros cur Hq Hd.
  - by rewrite append_nil_r.
  - rewrite append_cons. cbn [parseCSVLine_from].
    cbn [has_char] in Hq, Hd. apply orb_false_iff in Hq as [Hq1 Hq], Hd as [Hd1 Hd].
    rewrite Ascii.eqb_sym in Hq1. rewrite Hq1.
    assert (String.eqb (String c EmptyString) (String d EmptyString) = false) as ->.
    { apply String.eqb_neq. intros [= ->]. by rewrite Ascii.eqb_refl in Hd1. }
    rewrite IH by done. by rewrite append_snoc.
Qed.

Lemma parse_quoted D s rest result cur :
  no_quote_ahead rest ->
  parseCSVLine_from (double_quotes s +:+ String dquote rest) D result cur true
  = parseCSVLine_from rest D result (cur +:+ s) false.
Proof.
  intros Hrest. revert cur. induction s as [|c s IH]; intros cur.
  - rewrite append_nil_r. cbn [double_quotes]. rewrite append_nil_l.
    cbn [parseCSVLine_from]. rewrite Ascii.eqb_refl.
    destruct rest as [|c rest]; [done|]. simpl in Hrest. by rewrite Hrest.
  - cbn [double_quotes]. destruct (Ascii.eqb c dquote) eqn:Hc.
    + apply Ascii.eqb_eq in Hc as ->. rewrite !append_cons.
      cbn [parseCSVLine_from]. rewrite Ascii.eqb_refl, IH. by rewrite append_snoc.
    + rewrite append_cons. cbn [parseCSVLine_from]. rewrite Hc, IH.
      by rewrite append_snoc.
Qed.

Lemma parse_cell d v rest result cur :
  d <> dquote -> no_quote_ahead rest ->
  parseCSVLine_from (csvCell (String d EmptyString) v +:+ rest) (String d EmptyString)
    result cur false
  = parseCSVLine_from rest (String d EmptyString) result (cur +:+ cell_text v) false.
Proof.
  intros Hd Hrest. destruct v as [str|]; cbn [csvCell];
    [|by rewrite append_nil_l, append_nil_r].
  assert (cell_text (Some str) = str) as -> by by destruct str.
  rewrite !includes_char.
  destruct (has_char d str || has_char dquote str || has_char newline str) eqn:Hq.
  - rewrite append_cons. cbn [parseCSVLine_from]. rewrite Ascii.eqb_refl.
    rewrite append_snoc. by apply parse_quoted.
  - apply orb_false_iff in Hq as [Hq _]. apply orb_false_iff in Hq as [H1 H2].
    by apply parse_plain.
Qed.

Lemma parse_row d values result :
  d <> dquote -> values <> [] ->
  parseCSVLine_from (csvRow (String d EmptyString) values) (String d EmptyString)
    result EmptyString false
  = result ++ map cell_text values.
Proof.
  intros Hd. revert result. induction values as [|v vs IH]; intros result Hne; [done|].
  unfold csvRow in *. destruct vs as [|v' vs].
  - cbn [map String.concat].
    rewrite <- (append_nil_r (csvCell _ v)), parse_cell by done. done.
  - cbn [map String.concat]. cbn [map] in IH.
    rewrite append_cons, append_nil_l.
    rewrite parse_cell; [|done|by apply Ascii.eqb_neq].
    cbn [parseCSVLine_from]. apply Ascii.eqb_neq in Hd. rewrite Hd, String.eqb_refl.
    rewrite IH by done. cbn [map]. rewrite append_nil_l. by rewrite <- app_assoc.
Qed.

(** X16: a row written by [jsonToCSV] is read back by [parseCSVLine]
    cell for cell, whatever the values hold (delimiters, quotes, line
    breaks), for every one-character delimiter that is not the quote; a
    [null] value comes back as the empty string. *)
Theorem csv_row_round_trip (d : Ascii.ascii) (values : list (option string)) :
  d <> dquote -> values <> [] ->
  parseCSVLine (csvRow (String d EmptyString) values) (String d EmptyString)
  = map cell_text values.
Proof. intros Hd Hne. unfold parseCSVLine. by rewrite parse_row. Qed.

(** ** The properties above on concrete runs *)

(** A pool of one worker that crashes and is replaced. *)
Lemma minimum_is_kept_witness :
  draws Z.of_nat (clock 1000)
  /\ minWorkers (constructor one_worker 8 (clock 1000))
     <= totalWorkers
          (getStats (run submit_then_crash (constructor one_worker 8 (clock 1000)))).
Proof.
  split; [intros n; reflexivity|].
  refine (proj2 (minimum_is_kept Z.of_nat one_worker 8 (clock 1000) submit_then_crash
                   _ _ _) _).
  - intros a b; lia.
  - intros n; reflexivity.
  - repeat constructor.
  - reflexivity.
Defined.

(** The only worker answers its task. *)
Lemma message_settles_the_named_task_witness :
  heap one_busy !! 0 = Some busy_with_a
  /\ settled (on_message (clock 1500) 0 done_a one_busy) = [(0, Resolved (Some "ok"))].
Proof.
  split; [reflexivity|].
  pose proof (proj2 (message_settles_the_named_task (clock 1500) 0 done_a one_busy
                       busy_with_a eq_refl) 0 busy_with_a eq_refl eq_refl) as H.
  vm_compute in H. destruct H as [H _]. vm_compute. exact H.
Defined.

(** A second task on the pool whose only worker is busy. *)
Lemma saturated_pool_only_queues_witness :
  saturated one_busy
  /\ exists q, execute (clock 1002) "hash" "y" None None "b" one_busy = inr (1, q)
               /\ posted q = posted one_busy.
Proof.
  assert (saturated one_busy) as Hs by (split; [reflexivity|vm_compute; lia]).
  split; [exact Hs|].
  destruct (saturated_pool_only_queues (clock 1002) "hash" "y" None None "b"
              one_busy Hs eq_refl) as [_ He].
  eexists. split; [exact He|reflexivity].
Defined.

(** The first task on a fresh pool of one worker. *)
Lemma idle_worker_gets_the_task_at_once_witness :
  getAvailableWorker (constructor one_worker 8 (clock 1000)) = Some 0
  /\ exists p',
       execute (clock 1001) "hash" "x" None None "a" (constructor one_worker 8 (clock 1000))
       = inr (0, p')
       /\ posted p' = [(0, task_a)].
Proof.
  split; [reflexivity|].
  destruct (idle_worker_gets_the_task_at_once (clock 1001) "hash" "x" None None "a"
              (constructor one_worker 8 (clock 1000)) 0 eq_refl eq_refl eq_refl eq_refl)
    as (p' & i & He & _ & _ & _ & Hp & _).
  exists p'. split; [exact He|exact Hp].
Defined.

(** The timer of the posted task fires. *)
Lemma timeout_frees_without_dispatch_witness :
  timers one_busy !! 0 = Some timer_a
  /\ heap one_busy !! tm_worker timer_a = Some busy_with_a
  /\ getAvailableWorker (step (clock 61001) (EvTimeout 0) one_busy) <> None.
Proof.
  split; [reflexivity|]. split; [reflexivity|].
  refine (proj1 (proj2 (timeout_frees_without_dispatch (clock 61001) 0 timer_a busy_with_a
                          0%Z one_busy eq_refl eq_refl eq_refl _))).
  vm_compute. left.
Defined.

(** The busy worker answers a task that is not in the queue. *)
Lemma late_message_unassigns_the_current_task_witness :
  no_task_named (r_taskId stale_result) one_busy
  /\ is_pending one_busy task_a = false
  /\ task_a ∈ pendingTasks (on_message (clock 1500) 0 stale_result one_busy).
Proof.
  assert (no_task_named (r_taskId stale_result) one_busy) as Hn.
  { unfold no_task_named. vm_compute. repeat constructor. discriminate. }
  split; [exact Hn|].
  assert (task_a ∈ taskQueue one_busy) as Hin by (vm_compute; left).
  assert (forall r0, r0 ∈ JsMap.values (workers one_busy) -> r0 <> 0 ->
                     names one_busy (t_id task_a) r0 = false) as Hothers.
  { intros r0 Hr0 Hne. vm_compute in Hr0. inversion Hr0; subst; [done|].
    match goal with H : _ ∈ [] |- _ => inversion H end. }
  destruct (late_message_unassigns_the_current_task (clock 1500) 0 stale_result one_busy
              busy_with_a 0 busy_with_a task_a eq_refl eq_refl eq_refl eq_refl
              Hin Hn Hothers) as (H1 & H2 & _).
  split; [exact H1|exact H2].
Defined.

(** A sweep and a worker exit after the shutdown has completed. *)
Lemma shut_down_pool_stays_empty_witness :
  isShuttingDown shut_pool = true
  /\ sleepers shut_pool !! 0 = Some Terminating
  /\ totalWorkers
       (getStats (run [(clock 2500, EvCleanup); (clock 2600, EvExit 0)]
                    (step (clock 2100) (EvResume 0) shut_pool))) = 0.
Proof.
  split; [reflexivity|]. split; [reflexivity|].
  exact (proj1 (shut_down_pool_stays_empty (clock 2100) 0 shut_pool
                  [(clock 2500, EvCleanup); (clock 2600, EvExit 0)] eq_refl eq_refl)).
Defined.

(** The video pool on a machine of eight processors. *)
Lemma small_pools_stay_within_bounds_witness :
  Video <> General
  /\ maxWorkers (run submit_a (fst (getPool Video 8 (clock 1000) no_pools))) = 2.
Proof.
  assert (Video <> General) as Hd by discriminate.
  split; [exact Hd|].
  exact (proj1 (proj2 (small_pools_stay_within_bounds Video 8 (clock 1000) submit_a Hd))).
Defined.

(** The general pool on a machine of one processor. *)
Lemma general_pool_needs_two_processors_witness :
  draws Z.of_nat (clock 1000)
  /\ maxWorkers (fst (getGeneralPool 1 (clock 1000) no_pools))
     < totalWorkers (getStats (fst (getGeneralPool 1 (clock 1000) no_pools))).
Proof.
  split; [intros n; reflexivity|].
  destruct (general_pool_needs_two_processors 1 (clock 1000)) as (_ & _ & _ & H).
  refine (proj2 (H _ Z.of_nat _ _)).
  - lia.
  - intros a b; lia.
  - intros n; reflexivity.
Defined.

(** The image pool has completed its shutdown. *)
Lemma health_fails_after_shutdown_witness :
  isShuttingDown shut_pool = true
  /\ hb_status (fst (healthRoute 8 (clock 3000) image_pool_gone)) = 503.
Proof.
  split; [reflexivity|].
  exact (proj1 (proj2 (health_fails_after_shutdown 8 (clock 3000) (clock 2100)
                         image_pool_gone Image shut_pool 0 [] eq_refl eq_refl eq_refl))).
Defined.

(** A row of three values, with the comma as delimiter. *)
Lemma csv_row_round_trip_witness :
  comma <> dquote
  /\ parseCSVLine (csvRow (String comma EmptyString) sample_values)
       (String comma EmptyString)
     = [tricky; EmptyString; "plain"].
Proof.
  assert (comma <> dquote) as Hd by discriminate.
  split; [exact Hd|].
  apply (csv_row_round_trip comma sample_values Hd). discriminate.
Defined.
